(** * The markdown renderer and the report handlers of the content analyzer

    A shallow embedding of [src/components/VideoAnalyzer.tsx] (the
    component's state handlers and [parseMarkdownToHtml]) and of the service
    [analyzeTextContent], with the properties the specification states about
    them.

    JavaScript strings are sequences of UTF-16 code units; the regular
    expressions of the source carry no [u] flag, so they work on code units
    as well.  A string is therefore a list of code units, each a number. *)

From Stdlib Require Import Ascii String NArith ZArith Bool Arith Lia List Relations.
Import ListNotations.

Set Implicit Arguments.

(* ===================================================================== *)
(** * Strings *)
(* ===================================================================== *)

Module JS.

Definition char := N.
Definition jsstring := list char.

(** A code unit and a string written as ASCII literals. *)
Definition ch (a : ascii) : char := N_of_ascii a.
Definition str (s : string) : jsstring := map N_of_ascii (list_ascii_of_string s).

(** The double quote, the line feed and the carriage return. *)
Definition dq : jsstring := [34%N].
Definition nl : jsstring := [10%N].
Definition cr : jsstring := [13%N].

(** An attribute value between double quotes. *)
Definition q (s : string) : jsstring := dq ++ str s ++ dq.

Definition spaces (n : nat) : jsstring := repeat 32%N n.

(** [WhiteSpace] and [LineTerminator] of ECMAScript: what [trim] strips and
    what [\s] matches. *)
Definition is_space (c : char) : bool :=
  ((9 <=? c) && (c <=? 13) || (c =? 32) || (c =? 160) || (c =? 5760)
   || (8192 <=? c) && (c <=? 8202) || (c =? 8232) || (c =? 8233)
   || (c =? 8239) || (c =? 8287) || (c =? 12288) || (c =? 65279))%N.

(** Line terminators: what [.] does not match. *)
Definition is_line_terminator (c : char) : bool :=
  ((c =? 10) || (c =? 13) || (c =? 8232) || (c =? 8233))%N.

Definition is_digit (c : char) : bool := ((48 <=? c) && (c <=? 57))%N.

Fixpoint eqb (s t : jsstring) : bool :=
  match s, t with
  | [], [] => true
  | c :: s', d :: t' => (c =? d)%N && eqb s' t'
  | _, _ => false
  end.

Definition is_empty (s : jsstring) : bool :=
  match s with [] => true | _ :: _ => false end.

(** [s.startsWith(p)] *)
Fixpoint startsWith (p s : jsstring) : bool :=
  match p, s with
  | [], _ => true
  | c :: p', d :: s' => (c =? d)%N && startsWith p' s'
  | _ :: _, [] => false
  end.

(** [s.substring(n)] *)
Definition substring (n : nat) (s : jsstring) : jsstring := skipn n s.

Fixpoint trimStart (s : jsstring) : jsstring :=
  match s with
  | c :: s' => if is_space c then trimStart s' else s
  | [] => []
  end.

Definition trimEnd (s : jsstring) : jsstring := rev (trimStart (rev s)).

(** [s.trim()] *)
Definition trim (s : jsstring) : jsstring := trimEnd (trimStart s).

(** [s.split(c)] for a separator of one code unit: [cur] holds the piece
    being read, reversed. *)
Fixpoint split_from (sep : char) (cur : jsstring) (s : jsstring) : list jsstring :=
  match s with
  | [] => [rev cur]
  | c :: s' =>
      if (c =? sep)%N then rev cur :: split_from sep [] s'
      else split_from sep (c :: cur) s'
  end.

Definition split (sep : char) (s : jsstring) : list jsstring := split_from sep [] s.

(** [a.join(sep)] *)
Fixpoint join (sep : jsstring) (a : list jsstring) : jsstring :=
  match a with
  | [] => []
  | [x] => x
  | x :: a' => x ++ sep ++ join sep a'
  end.

(** [a.slice(1, -1)]: without the first and the last element. *)
Definition slice_1_m1 (A : Type) (a : list A) : list A := removelast (tl a).

(** [a.slice(n)] *)
Definition slice_from (A : Type) (n : nat) (a : list A) : list A := skipn n a.

(** [a.findIndex(p)]: the first index whose element satisfies [p], or -1. *)
Fixpoint findIndex_from (A : Type) (p : A -> bool) (i : Z) (a : list A) : Z :=
  match a with
  | [] => (-1)%Z
  | x :: a' => if p x then i else findIndex_from p (i + 1)%Z a'
  end.

Definition findIndex (A : Type) (p : A -> bool) (a : list A) : Z :=
  findIndex_from p 0%Z a.

(** [a.every(p)] *)
Definition every (A : Type) (p : A -> bool) (a : list A) : bool := forallb p a.

(** [[...new Set(a)]]: the elements of [a] in the order of their first
    occurrence, each once. *)
Fixpoint set_from (seen : list jsstring) (a : list jsstring) : list jsstring :=
  match a with
  | [] => []
  | x :: a' =>
      if existsb (eqb x) seen then set_from seen a'
      else x :: set_from (x :: seen) a'
  end.

Definition set_of (a : list jsstring) : list jsstring := set_from [] a.

End JS.

Import JS.

(* ===================================================================== *)
(** * Regular expressions *)
(* ===================================================================== *)

(** The fragment of ECMAScript's regular expressions that the source uses,
    with the backtracking semantics of the language: an alternative tries
    its left side first, a greedy quantifier tries one more iteration before
    it tries to stop, a lazy one tries to stop first, and an iteration that
    consumes nothing is rejected. *)

Module Regex.

Inductive regex : Type :=
| Empty
| Chr (c : char)
| Class (p : char -> bool)
| Seq (r1 r2 : regex)
| Alt (r1 r2 : regex)
| Star (greedy : bool) (r : regex)
| Group (i : nat) (r : regex)
| Bol
| NotBehind (w : jsstring).

(** [r+], [r?], [r{2,}] and a literal word. *)
Definition Plus (r : regex) : regex := Seq r (Star true r).
Definition Opt (r : regex) : regex := Alt r Empty.
Definition AtLeast2 (r : regex) : regex := Seq r (Seq r (Star true r)).
Definition Word (w : jsstring) : regex := fold_right (fun c r => Seq (Chr c) r) Empty w.

(** [.], [\s], [\d] and a negated class. *)
Definition Dot : regex := Class (fun c => negb (is_line_terminator c)).
Definition Space : regex := Class is_space.
Definition Digit : regex := Class is_digit.
Definition NoneOf (p : char -> bool) : regex := Class (fun c => negb (p c)).

(** The matcher's state: the input before the cursor (nearest code unit
    first), the input from the cursor on, and the captures made so far. *)
Record mstate : Type := MState {
  before : jsstring;
  after : jsstring;
  caps : list (nat * jsstring)
}.

Fixpoint capture (i : nat) (cs : list (nat * jsstring)) : option jsstring :=
  match cs with
  | [] => None
  | (j, w) :: cs' => if Nat.eqb i j then Some w else capture i cs'
  end.

(** The capturing groups of a pattern. *)
Fixpoint groups (r : regex) : list nat :=
  match r with
  | Seq r1 r2 | Alt r1 r2 => groups r1 ++ groups r2
  | Star _ r' => groups r'
  | Group i r' => i :: groups r'
  | _ => []
  end.

Definition clear (gs : list nat) (cs : list (nat * jsstring)) : list (nat * jsstring) :=
  filter (fun p => negb (existsb (Nat.eqb (fst p)) gs)) cs.

Definition orelse (A : Type) (x y : option A) : option A :=
  match x with Some _ => x | None => y end.

(** What was consumed between two cursors on the same input. *)
Definition consumed (from to : jsstring) : jsstring :=
  firstn (length from - length to) from.

(** The iterations of a quantifier over [body]: first the captures of the
    groups [gs] inside it are reset, then [body] runs; an iteration that
    consumes nothing is rejected.  The iterations are counted down from the
    length of the remaining input, so the count never runs out. *)
Fixpoint iterate (body : mstate -> (mstate -> option mstate) -> option mstate)
    (gs : list nat) (greedy : bool) (k : mstate -> option mstate)
    (n : nat) (st : mstate) : option mstate :=
  match n with
  | O => None
  | S n' =>
      let again :=
        body (MState (before st) (after st) (clear gs (caps st)))
          (fun st' =>
             if length (after st') <? length (after st)
             then iterate body gs greedy k n' st' else None) in
      if greedy then orelse again (k st) else orelse (k st) again
  end.

(** [m r st k]: match [r] at the cursor of [st] and hand the state reached
    to the continuation [k], which matches the rest of the pattern; [None]
    when every way of matching [r] makes [k] fail. *)
Fixpoint m (r : regex) (st : mstate) (k : mstate -> option mstate) : option mstate :=
  match r with
  | Empty => k st
  | Chr c =>
      match after st with
      | d :: rest => if (c =? d)%N then k (MState (d :: before st) rest (caps st)) else None
      | [] => None
      end
  | Class p =>
      match after st with
      | d :: rest => if p d then k (MState (d :: before st) rest (caps st)) else None
      | [] => None
      end
  | Seq r1 r2 => m r1 st (fun st' => m r2 st' k)
  | Alt r1 r2 => orelse (m r1 st k) (m r2 st k)
  | Star greedy r' => iterate (m r') (groups r') greedy k (S (length (after st))) st
  | Group i r' =>
      m r' st (fun st' =>
        k (MState (before st') (after st')
             ((i, consumed (after st) (after st')) :: caps st')))
  | Bol => match before st with [] => k st | _ :: _ => None end
  | NotBehind w => if startsWith (rev w) (before st) then None else k st
  end.

(** One match: the text before it, the matched text, the captures and the
    text after it. *)
Record found : Type := Found {
  pre : jsstring;
  matched : jsstring;
  groups_of : list (nat * jsstring);
  post : jsstring
}.

(** The leftmost match from the cursor on; [skipped] is the text between
    the cursor and the attempt, reversed. *)
Fixpoint search_from (r : regex) (bef skipped aft : jsstring) : option found :=
  match m r (MState bef aft []) Some with
  | Some st => Some (Found (rev skipped) (consumed aft (after st)) (caps st) (after st))
  | None =>
      match aft with
      | [] => None
      | c :: aft' => search_from r (c :: bef) (c :: skipped) aft'
      end
  end.

(** [r.exec(s)] of a pattern without flags. *)
Definition exec (r : regex) (s : jsstring) : option found := search_from r [] [] s.

(** [r.test(s)], and the truth value of [s.match(r)]. *)
Definition test (r : regex) (s : jsstring) : bool :=
  match exec r s with Some _ => true | None => false end.

(** A replacement string, read: literal text, [$n] and [$&]. *)
Inductive piece : Type :=
| Text (w : jsstring)
| Ref (i : nat)
| Whole.

Definition expand (tpl : list piece) (f : found) : jsstring :=
  flat_map (fun p =>
    match p with
    | Text w => w
    | Ref i => match capture i (groups_of f) with Some w => w | None => [] end
    | Whole => matched f
    end) tpl.

(** [s.replace(r, tpl)] of a pattern without the [g] flag: the first match. *)
Definition replace (r : regex) (tpl : list piece) (s : jsstring) : jsstring :=
  match exec r s with
  | Some f => pre f ++ expand tpl f ++ post f
  | None => s
  end.

(** [s.replace(r, tpl)] of a pattern with the [g] flag: every match, each
    search starting where the last match ended, one code unit further after
    an empty match.  [bef] is the input before the cursor, reversed. *)
Fixpoint replace_loop (n : nat) (r : regex) (tpl : list piece) (bef aft : jsstring) : jsstring :=
  match n with
  | O => aft
  | S n' =>
      match search_from r bef [] aft with
      | None => aft
      | Some f =>
          let bef' := rev (matched f) ++ rev (pre f) ++ bef in
          pre f ++ expand tpl f ++
            match matched f, post f with
            | [], [] => []
            | [], c :: rest => c :: replace_loop n' r tpl (c :: bef') rest
            | _ :: _, _ => replace_loop n' r tpl bef' (post f)
            end
      end
  end.

Definition replaceAll (r : regex) (tpl : list piece) (s : jsstring) : jsstring :=
  replace_loop (S (length s)) r tpl [] s.

(** The captures a split inserts between two pieces, one for each group of
    the pattern.  A group that took no part in the match would give
    [undefined]; the patterns the source splits on have no such group, and
    the list leaves it out. *)
Definition captured (gs : list nat) (f : found) : list jsstring :=
  flat_map (fun i => match capture i (groups_of f) with Some w => [w] | None => [] end)
    (nodup Nat.eq_dec gs).

(** [s.split(r)]: at every position [q] from the start [p] of the current
    piece on, the pattern is tried at [q] exactly; a match that ends at [p]
    is passed over, any other closes the piece, contributes its captures and
    starts the next piece where it ends.  [cur] is the piece being read,
    reversed. *)
Fixpoint split_loop (n : nat) (r : regex) (bef cur aft : jsstring) : list jsstring :=
  match n with
  | O => [rev cur ++ aft]
  | S n' =>
      match aft with
      | [] => [rev cur]
      | c :: aft' =>
          match m r (MState bef aft []) Some with
          | None => split_loop n' r (c :: bef) (c :: cur) aft'
          | Some st =>
              let f := Found (rev cur) (consumed aft (after st)) (caps st) (after st) in
              match matched f, cur with
              | [], [] => split_loop n' r (c :: bef) (c :: cur) aft'
              | [], _ :: _ =>
                  rev cur :: captured (groups r) f ++ split_loop n' r (c :: bef) [c] aft'
              | _ :: _, _ =>
                  rev cur :: captured (groups r) f ++ split_loop n' r (before st) [] (after st)
              end
          end
      end
  end.

(** The empty text splits into nothing when the pattern matches it, and
    into itself otherwise. *)
Definition split (r : regex) (s : jsstring) : list jsstring :=
  match s with
  | [] => match m r (MState [] [] []) Some with Some _ => [] | None => [[]] end
  | _ :: _ => split_loop (S (length s)) r [] [] s
  end.

End Regex.

Import Regex.

(* ===================================================================== *)
(** * The renderer: [parseMarkdownToHtml] *)
(* ===================================================================== *)

Module Renderer.

(** A sequence of patterns. *)
Definition Cat (rs : list regex) : regex := fold_right Seq Empty rs.

Definition is_char (a : ascii) (c : char) : bool := (c =? ch a)%N.
Definition W (s : string) : regex := Word (str s).
Definition C (a : ascii) : regex := Chr (ch a).

(** ** The patterns of the source *)

(** [/\*\*(.*?)\*\*/g] *)
Definition re_bold : regex := Cat [W "**"; Group 1 (Star false Dot); W "**"].

(** [/_(.*?)_/g] *)
Definition re_italic : regex := Cat [C "_"; Group 1 (Star false Dot); C "_"].

(** [/\[([^\]]+)\]\(([^)]+)\)/g] *)
Definition re_link : regex :=
  Cat [C "["; Group 1 (Plus (NoneOf (is_char "]"))); C "]"; C "(";
       Group 2 (Plus (NoneOf (is_char ")"))); C ")"].

(** [/(?<!href=Q)(?<!href=')https?:\/\/[^\s]+/g], where Q stands for the
    double quote. *)
Definition re_url : regex :=
  Cat [NotBehind (str "href=" ++ dq); NotBehind (str "href='");
       W "http"; Opt (C "s"); W "://"; Plus (NoneOf is_space)].

(** [/```markdown\n|```/g] *)
Definition re_fence : regex := Alt (Word (str "```markdown" ++ nl)) (W "```").

(** [/(\r?\n){2,}/] *)
Definition re_blank : regex := AtLeast2 (Group 1 (Cat [Opt (Chr 13%N); Chr 10%N])).

(** [/\r?\n|\r/] *)
Definition re_line : regex := Alt (Cat [Opt (Chr 13%N); Chr 10%N]) (Chr 13%N).

(** [/\|(?:\s*:?-+:?\s*\|)+/] *)
Definition re_separator : regex :=
  Cat [C "|";
       Plus (Cat [Star true Space; Opt (C ":"); Plus (C "-"); Opt (C ":");
                  Star true Space; C "|"])].

(** [/^>\s?/] *)
Definition re_quote_marker : regex := Cat [Bol; C ">"; Opt Space].

(** [/^(\*|-)\s/] *)
Definition re_bullet : regex := Cat [Bol; Group 1 (Alt (C "*") (C "-")); Space].

(** [/^\s*[-*]\s*/] *)
Definition re_bullet_marker : regex :=
  Cat [Bol; Star true Space; Class (fun c => is_char "-" c || is_char "*" c); Star true Space].

(** [/^\d+\.\s/] *)
Definition re_number : regex := Cat [Bol; Plus Digit; C "."; Space].

(** [/^\s*\d+\.\s*/] *)
Definition re_number_marker : regex :=
  Cat [Bol; Star true Space; Plus Digit; C "."; Star true Space].

(** [/\n/g] *)
Definition re_lf : regex := Chr 10%N.

(** ** Inline spans *)

Definition link_attrs : jsstring :=
  str " target=" ++ q "_blank" ++ str " rel=" ++ q "noopener noreferrer".

Definition processInlines (text : jsstring) : jsstring :=
  let bold := Regex.replaceAll re_bold [Text (str "<strong>"); Ref 1; Text (str "</strong>")] text in
  let italic := Regex.replaceAll re_italic [Text (str "<em>"); Ref 1; Text (str "</em>")] bold in
  let links :=
    Regex.replaceAll re_link
      [Text (str "<a href=" ++ dq); Ref 2;
       Text (dq ++ link_attrs ++ str " class=" ++ q "text-blue-400 hover:underline" ++ str ">");
       Ref 1; Text (str "</a>")] italic in
  Regex.replaceAll re_url
    [Text (str "<a href=" ++ dq); Whole;
     Text (dq ++ link_attrs ++ str " class=" ++ q "text-blue-400 hover:underline break-all" ++ str ">");
     Whole; Text (str "</a>")] links.

(** ** Blocks *)

Definition cleanMarkdown (markdown : jsstring) : jsstring :=
  trim (Regex.replaceAll re_fence [] markdown).

Definition blocks (markdown : jsstring) : list jsstring :=
  Regex.split re_blank (cleanMarkdown markdown).

Definition lines (trimmedBlock : jsstring) : list jsstring :=
  Regex.split re_line trimmedBlock.

(** The table branch. *)

Definition rows (trimmedBlock : jsstring) : list jsstring :=
  filter (fun row => startsWith (str "|") (trim row)) (lines trimmedBlock).

Definition separatorIndex (rows : list jsstring) : Z :=
  findIndex (Regex.test re_separator) rows.

Definition cells (rowStr : jsstring) : list jsstring :=
  map trim (slice_1_m1 (JS.split (ch "|") rowStr)).

(** [rows[0]] is read only when [separatorIndex > 0], so it exists. *)
Definition headers (rows : list jsstring) : list jsstring := cells (nth 0 rows []).

Definition bodyRows (rows : list jsstring) : list jsstring :=
  slice_from (Z.to_nat (separatorIndex rows + 1)) rows.

Definition th (h : jsstring) : jsstring :=
  str "<th class=" ++ q "p-3 border-b border-neutral-700 text-left font-semibold bg-neutral-800/50"
    ++ str ">" ++ processInlines h ++ str "</th>".

Definition td (cell : jsstring) : jsstring :=
  str "<td class=" ++ q "p-3 border-b border-neutral-800 align-top" ++ str ">"
    ++ processInlines cell ++ str "</td>".

Definition tr (rowStr : jsstring) : jsstring :=
  let cells := cells rowStr in
  if (length cells =? 0) || every is_empty cells then []
  else str "<tr>" ++ join [] (map td cells) ++ str "</tr>".

Definition table (ths trs : jsstring) : jsstring :=
  nl ++ spaces 20 ++ str "<div class=" ++ q "overflow-x-auto my-4 rounded-lg border border-neutral-800" ++ str ">"
  ++ nl ++ spaces 24 ++ str "<table class=" ++ q "w-full text-sm" ++ str ">"
  ++ nl ++ spaces 28 ++ str "<thead class=" ++ q "bg-neutral-800/50" ++ str ">"
  ++ nl ++ spaces 32 ++ str "<tr>" ++ ths ++ str "</tr>"
  ++ nl ++ spaces 28 ++ str "</thead>"
  ++ nl ++ spaces 28 ++ str "<tbody>" ++ trs ++ str "</tbody>"
  ++ nl ++ spaces 24 ++ str "</table>"
  ++ nl ++ spaces 20 ++ str "</div>"
  ++ nl ++ spaces 16.

Definition render_table (rows : list jsstring) : jsstring :=
  table (join [] (map th (headers rows))) (join [] (map tr (bodyRows rows))).

(** The other branches. *)

Definition heading3 (trimmedBlock : jsstring) : jsstring :=
  str "<h3 class=" ++ q "text-lg font-semibold my-2" ++ str ">"
    ++ processInlines (substring 4 trimmedBlock) ++ str "</h3>".

Definition heading2 (trimmedBlock : jsstring) : jsstring :=
  str "<h2 class=" ++ q "text-xl font-semibold my-3 border-b border-neutral-600 pb-1" ++ str ">"
    ++ processInlines (substring 3 trimmedBlock) ++ str "</h2>".

Definition heading1 (trimmedBlock : jsstring) : jsstring :=
  str "<h1 class=" ++ q "text-2xl font-bold my-4" ++ str ">"
    ++ processInlines (substring 2 trimmedBlock) ++ str "</h1>".

Definition quoteContent (trimmedBlock : jsstring) : jsstring :=
  join (str " ") (map (Regex.replace re_quote_marker []) (lines trimmedBlock)).

Definition blockquote (trimmedBlock : jsstring) : jsstring :=
  str "<blockquote class=" ++ q "border-l-4 border-neutral-600 pl-4 my-4 italic text-neutral-400"
    ++ str ">" ++ processInlines (quoteContent trimmedBlock) ++ str "</blockquote>".

Definition li (marker : regex) (item : jsstring) : jsstring :=
  let content := Regex.replace marker [] item in
  str "<li class=" ++ q "pb-1" ++ str ">" ++ processInlines content ++ str "</li>".

Definition ul (trimmedBlock : jsstring) : jsstring :=
  let items := join [] (map (li re_bullet_marker) (lines trimmedBlock)) in
  str "<ul class=" ++ q "list-disc list-inside space-y-1 my-2" ++ str ">" ++ items ++ str "</ul>".

Definition ol (trimmedBlock : jsstring) : jsstring :=
  let items := join [] (map (li re_number_marker) (lines trimmedBlock)) in
  str "<ol class=" ++ q "list-decimal list-inside space-y-1 my-2" ++ str ">" ++ items ++ str "</ol>".

Definition paragraph (trimmedBlock : jsstring) : jsstring :=
  str "<p>" ++ Regex.replaceAll re_lf [Text (str "<br />")] (processInlines trimmedBlock)
    ++ str "</p>".

(** The callback of [blocks.map] after its guard [if (!trimmedBlock)]:
    the branches in the order of the source; the table branch falls through
    when no separator row is found below the first row. *)
Definition render_trimmed (trimmedBlock : jsstring) : jsstring :=
  if startsWith (str "|") trimmedBlock && (0 <? separatorIndex (rows trimmedBlock))%Z
  then render_table (rows trimmedBlock)
  else if startsWith (str "### ") trimmedBlock then heading3 trimmedBlock
  else if startsWith (str "## ") trimmedBlock then heading2 trimmedBlock
  else if startsWith (str "# ") trimmedBlock then heading1 trimmedBlock
  else if startsWith (str "> ") trimmedBlock then blockquote trimmedBlock
  else if Regex.test re_bullet trimmedBlock then ul trimmedBlock
  else if Regex.test re_number trimmedBlock then ol trimmedBlock
  else paragraph trimmedBlock.

(** The callback of [blocks.map]. *)
Definition render_block (block : jsstring) : jsstring :=
  let trimmedBlock := trim block in
  if is_empty trimmedBlock then [] else render_trimmed trimmedBlock.

Definition parseMarkdownToHtml (markdown : jsstring) : jsstring :=
  join [] (map render_block (blocks markdown)).

End Renderer.

Import Renderer.

(* ===================================================================== *)
(** * The service: [analyzeVideo], [analyzeTextContent], [generateArticle] *)
(* ===================================================================== *)

Module Service.

(** A [File] as the code reads it: its name and its MIME type. *)
Record File : Type := { name : jsstring; type : jsstring }.

(** A failed promise or a thrown exception carries an [Error]; a settled
    call is either that or its value. *)
Definition Error := jsstring.
Definition result (A : Type) : Type := (Error + A)%type.

(** The response of the provider, as far as the code reads it. *)
Record Web : Type := { title : option jsstring; uri : option jsstring }.
Record GroundingChunk : Type := { web : option Web }.
Record GroundingMetadata : Type := { groundingChunks : option (list GroundingChunk) }.
Record Candidate : Type := { groundingMetadata : option GroundingMetadata }.
Record Response : Type := { text : jsstring; candidates : option (list Candidate) }.

Inductive Part : Type :=
| InlineData (mimeType : jsstring) (data : option jsstring)
| TextPart (text : jsstring).

Inductive Contents : Type :=
| Parts (parts : list Part)
| Prompt (text : jsstring).

Record Config : Type := {
  systemInstruction : option jsstring;
  googleSearch : bool;
  thinkingBudget : option N
}.

Record Request : Type := { model : jsstring; contents : Contents; config : Config }.

Definition no_config : Config :=
  {| systemInstruction := None; googleSearch := false; thinkingBudget := None |}.

Definition videoAnalysisModel : jsstring := str "gemini-2.5-pro".
Definition textModel : jsstring := str "gemini-2.5-flash".

(** [x?.f] and [x?.[0]] *)
Definition opt (A B : Type) (x : option A) (f : A -> option B) : option B :=
  match x with Some a => f a | None => None end.

(** The truth value of an optional string: defined and not empty. *)
Definition truthy (x : option jsstring) : bool :=
  match x with Some (_ :: _) => true | _ => false end.

(** [web?.uri && web.uri.trim() !== ''] *)
Definition has_uri (w : option Web) : bool :=
  match w with
  | Some w' =>
      truthy (uri w') &&
      match uri w' with Some u => negb (is_empty (trim u)) | None => false end
  | None => false
  end.

(** [`[${web.title || web.uri}](${web.uri})`], for a [web] that passed the
    filter. *)
Definition source_link (w : option Web) : jsstring :=
  match w with
  | Some w' =>
      let u := match uri w' with Some u => u | None => [] end in
      let label := if truthy (title w') then match title w' with Some t => t | None => [] end else u in
      str "[" ++ label ++ str "](" ++ u ++ str ")"
  | None => []
  end.

Definition sources (chunks : list GroundingChunk) : list jsstring :=
  map source_link (filter has_uri (map web chunks)).

Definition uniqueSources (chunks : list GroundingChunk) : list jsstring :=
  set_of (sources chunks).

(** [response.candidates?.[0]?.groundingMetadata?.groundingChunks] *)
Definition chunks_of (response : Response) : option (list GroundingChunk) :=
  opt (opt (opt (candidates response) (fun cs => nth_error cs 0)) groundingMetadata)
    groundingChunks.

(** The report text with its Sources section: the body of the [try] block
    of [analyzeTextContent] after the call. *)
Definition with_sources (response : Response) : jsstring :=
  let reportText := text response in
  match chunks_of response with
  | Some ((_ :: _) as chunks) =>
      if 0 <? length (sources chunks)
      then reportText ++ nl ++ nl ++ str "## Sources" ++ nl ++ join nl (uniqueSources chunks)
      else reportText
  | _ => reportText
  end.

Section Provider.

(** The two calls that leave the program: the provider's
    [ai.models.generateContent] and the browser's [FileReader]. *)
Variable generateContent : Request -> result Response.
Variable readAsDataURL : File -> result jsstring.

(** The text of the instruction sent with a report request; the code only
    passes it on. *)
Variable REPORT_SYSTEM_INSTRUCTION : jsstring.

Definition convertFileToGenerativePart (file : File) : result Part :=
  match readAsDataURL file with
  | inr res => inr (InlineData (type file) (nth_error (JS.split (ch ",") res) 1))
  | inl error => inl error
  end.

Definition systemPrompt : jsstring :=
  str "Analyze this video in detail. Your primary goal is to act as a 'Learning Machine'. Extract all important key points and provide a deep understanding of the speaker's message. Identify any websites mentioned, including their URLs and a brief description. Pay close attention to any instructional content or key information being taught. Finally, compile all this information into a comprehensive, well-structured summary. If the user provides additional instructions, prioritize them.".

Definition analyzeVideo (videoFile : File) (userPrompt : jsstring) : result jsstring :=
  match convertFileToGenerativePart videoFile with
  | inl error => inl error
  | inr videoPart =>
      let finalPrompt :=
        if is_empty userPrompt then systemPrompt
        else systemPrompt ++ nl ++ nl ++ str "User Instructions: " ++ userPrompt in
      match generateContent
              {| model := videoAnalysisModel;
                 contents := Parts [videoPart; TextPart finalPrompt];
                 config := no_config |} with
      | inr response => inr (text response)
      | inl _ => inl (str "Failed to generate content from video.")
      end
  end.

Definition analyzeTextContent (textContent : jsstring) : result jsstring :=
  match generateContent
          {| model := str "gemini-2.5-pro";
             contents := Prompt textContent;
             config := {| systemInstruction := Some REPORT_SYSTEM_INSTRUCTION;
                          googleSearch := true;
                          thinkingBudget := None |} |} with
  | inr response => inr (with_sources response)
  | inl _ => inl (str "Failed to generate report from text content.")
  end.

Definition generateArticle (summary : jsstring) (isThinkingMode : bool) : result jsstring :=
  let prompt :=
    str "Based on the following summary of a video, write a full, highly detailed, SEO-friendly article. The article should be engaging, well-structured with headings and subheadings, and optimized for search engines."
      ++ nl ++ nl ++ str "--- VIDEO SUMMARY ---" ++ nl ++ summary in
  let config :=
    if isThinkingMode
    then {| systemInstruction := None; googleSearch := false; thinkingBudget := Some 24576%N |}
    else no_config in
  match generateContent {| model := textModel; contents := Prompt prompt; config := config |} with
  | inr response => inr (text response)
  | inl _ => inl (str "Failed to generate article from summary.")
  end.

End Provider.

End Service.

(* ===================================================================== *)
(** * The component: its state and its handlers *)
(* ===================================================================== *)

Module Component.

Import Service.

Inductive loading : Type := LoadingSummary | LoadingArticle.

(** The seven [useState] cells of [VideoAnalyzer]. *)
Record state : Type := State {
  mainInput : jsstring;
  videoFile : option File;
  summary : jsstring;
  article : jsstring;
  isLoading : option loading;
  error : jsstring;
  isThinkingMode : bool
}.

(** Handlers run in a state monad over the cells. *)
Definition M (A : Type) : Type := state -> A * state.
Definition ret (A : Type) (a : A) : M A := fun s => (a, s).
Definition bind (A B : Type) (c : M A) (f : A -> M B) : M B :=
  fun s => let (a, s') := c s in f a s'.
Definition get : M state := fun s => (s, s).

Declare Scope handler_scope.
Delimit Scope handler_scope with handler.
Notation "x <- c ;; k" := (bind c (fun x => k))
  (at level 61, c at next level, right associativity) : handler_scope.
Notation "c ;; k" := (bind c (fun _ => k))
  (at level 61, right associativity) : handler_scope.
Local Open Scope handler_scope.

Definition setMainInput (v : jsstring) : M unit := fun s =>
  (tt, State v (videoFile s) (summary s) (article s) (isLoading s) (error s) (isThinkingMode s)).
Definition setVideoFile (v : option File) : M unit := fun s =>
  (tt, State (mainInput s) v (summary s) (article s) (isLoading s) (error s) (isThinkingMode s)).
Definition setSummary (v : jsstring) : M unit := fun s =>
  (tt, State (mainInput s) (videoFile s) v (article s) (isLoading s) (error s) (isThinkingMode s)).
Definition setArticle (v : jsstring) : M unit := fun s =>
  (tt, State (mainInput s) (videoFile s) (summary s) v (isLoading s) (error s) (isThinkingMode s)).
Definition setIsLoading (v : option loading) : M unit := fun s =>
  (tt, State (mainInput s) (videoFile s) (summary s) (article s) v (error s) (isThinkingMode s)).
Definition setError (v : jsstring) : M unit := fun s =>
  (tt, State (mainInput s) (videoFile s) (summary s) (article s) (isLoading s) v (isThinkingMode s)).

(** The call an [async] handler awaits. *)
Inductive call : Type :=
| AnalyzeVideo (videoFile : File) (userPrompt : jsstring)
| AnalyzeTextContent (textContent : jsstring)
| GenerateArticle (summary : jsstring) (isThinkingMode : bool).

(** An [async] handler runs up to its [await] and then either has returned
    or waits for a call to settle, to go on with what the call gave. *)
Inductive async : Type :=
| Returned
| Awaiting (request : call) (resume : result jsstring -> M unit).

(** [handleFileChange]; [files] is [event.target.files]. *)
Definition handleFileChange (files : option (list File)) : M unit :=
  match opt files (fun fs => nth_error fs 0) with
  | Some file =>
      if startsWith (str "video/") (type file) then
        setVideoFile (Some file) ;; setMainInput [] ;; setError []
      else
        setError (str "Please select a valid video file.") ;; setVideoFile None
  | None => ret tt
  end.

(** [handleGenerateReport] *)
Definition handleGenerateReport : M async :=
  s <- get ;;
  if match videoFile s with Some _ => false | None => true end
     && is_empty (trim (mainInput s))
  then
    setError (str "Please paste a transcript or upload a video file to analyze.") ;;
    ret Returned
  else
    setError [] ;;
    setIsLoading (Some LoadingSummary) ;;
    setSummary [] ;;
    setArticle [] ;;
    ret (Awaiting
           match videoFile s with
           | Some file => AnalyzeVideo file (mainInput s)
           | None => AnalyzeTextContent (mainInput s)
           end
           (fun settled =>
              match settled with
              | inr res => setSummary res
              | inl _ =>
                  setError (str "Failed to generate the report. Please check the console for details.")
              end ;;
              setIsLoading None)).

(** [handleSubmitArticle] *)
Definition handleSubmitArticle : M async :=
  s <- get ;;
  if is_empty (summary s) then
    setError (str "Please generate a report first.") ;;
    ret Returned
  else
    setError [] ;;
    setIsLoading (Some LoadingArticle) ;;
    setArticle [] ;;
    ret (Awaiting (GenerateArticle (summary s) (isThinkingMode s))
           (fun settled =>
              match settled with
              | inr res => setArticle res
              | inl _ =>
                  setError (str "Failed to generate the article. Please check the console for details.")
              end ;;
              setIsLoading None)).

(** [handleInputChange]; [text] is [e.target.value]. *)
Definition handleInputChange (text : jsstring) : M unit := setMainInput text.

(** What the markup of the component shows of the state: the [disabled]
    attribute of the two buttons, and the conditions [summary && ...],
    [article && ...] and [error && ...] under which the report card with the
    article controls, the article card and the error box are rendered. *)
Definition reportDisabled (s : state) : bool :=
  match isLoading s with Some LoadingSummary => true | _ => false end
  || (match videoFile s with Some _ => false | None => true end
      && is_empty (trim (mainInput s))).

Definition articleDisabled (s : state) : bool :=
  match isLoading s with Some LoadingArticle => true | _ => false end.

Definition reportShown (s : state) : bool := negb (is_empty (summary s)).
Definition articleShown (s : state) : bool := negb (is_empty (article s)).
Definition errorShown (s : state) : bool := negb (is_empty (error s)).

(** The textarea as [adjustHeight] of [useAutoResizeTextarea] reads and
    writes it: the pixels of [style.height], and the layout of its content,
    which gives the [scrollHeight] the browser reports at a given height. *)
Record Textarea : Type := { styleHeight : Z; layout : Z -> Z }.

Definition scrollHeight (t : Textarea) : Z := layout t (styleHeight t).

Definition setStyleHeight (h : Z) (t : Textarea) : Textarea :=
  {| styleHeight := h; layout := layout t |}.

(** [adjustHeight]; [maxHeight] may be missing ([maxHeight ?? Infinity]),
    and so may the textarea behind the ref. *)
Definition adjustHeight (minHeight : Z) (maxHeight : option Z)
    (textarea : option Textarea) : option Textarea :=
  match textarea with
  | None => None
  | Some t =>
      let t := setStyleHeight minHeight t in
      let newHeight :=
        Z.max minHeight
          (match maxHeight with
           | Some mx => Z.min (scrollHeight t) mx
           | None => scrollHeight t
           end) in
      Some (setStyleHeight newHeight t)
  end.

(** The state once a handler has completed, its call settled by [settle]. *)
Definition complete (settle : call -> result jsstring) (handler : M async) (s : state) : state :=
  match handler s with
  | (Returned, s') => s'
  | (Awaiting request resume, s') => snd (resume (settle request) s')
  end.

(** The state in which a handler issues its call, when it issues one. *)
Definition issued (handler : M async) (s : state) : option (call * state) :=
  match handler s with
  | (Returned, _) => None
  | (Awaiting request _, s') => Some (request, s')
  end.

Section Provider.

Variable generateContent : Request -> result Response.
Variable readAsDataURL : File -> result jsstring.
Variable REPORT_SYSTEM_INSTRUCTION : jsstring.

(** The calls as the service settles them. *)
Definition service (request : call) : result jsstring :=
  match request with
  | AnalyzeVideo file userPrompt => analyzeVideo generateContent readAsDataURL file userPrompt
  | AnalyzeTextContent textContent =>
      analyzeTextContent generateContent REPORT_SYSTEM_INSTRUCTION textContent
  | GenerateArticle summary isThinkingMode =>
      generateArticle generateContent summary isThinkingMode
  end.

End Provider.

(** ** Calls in flight

    A handler runs up to its [await] in one go; what follows the [await]
    runs when the call settles, and the component handles other events in
    between.  A session is the cells together with the calls in flight,
    each with the continuation of its handler. *)
Definition setIsThinkingMode (v : bool) : M unit := fun s =>
  (tt, State (mainInput s) (videoFile s) (summary s) (article s) (isLoading s) (error s) v).

Record flight : Type := Flight {
  ticket : nat;
  flight_call : call;
  flight_resume : result jsstring -> M unit
}.

Record session : Type := Session { ui : state; flights : list flight; fresh : nat }.

(** The events of the component: the [onChange] of the textarea, of the
    file input and of the thinking-mode checkbox, the [onClick] of the two
    buttons, and the settlement of a call in flight. *)
Inductive event : Type :=
| Typed (text : jsstring)
| Selected (files : option (list File))
| Toggled (checked : bool)
| ReportClicked
| ArticleClicked
| Settled (t : nat) (outcome : result jsstring).

Definition update (handler : M unit) (c : session) : session :=
  Session (snd (handler (ui c))) (flights c) (fresh c).

(** An [async] handler is run up to its [await]; its call takes off with
    the rest of the handler. *)
Definition launch (handler : M async) (c : session) : session :=
  match handler (ui c) with
  | (Returned, s) => Session s (flights c) (fresh c)
  | (Awaiting request resume, s) =>
      Session s (flights c ++ [Flight (fresh c) request resume]) (S (fresh c))
  end.

Definition pending (t : nat) (c : session) : option flight :=
  find (fun f => ticket f =? t) (flights c).

(** A call settles: the rest of its handler runs on the cells as they are
    by then. *)
Definition deliver (t : nat) (outcome : result jsstring) (c : session) : session :=
  match pending t c with
  | Some f =>
      Session (snd (flight_resume f outcome (ui c)))
        (filter (fun f' => negb (ticket f' =? t)) (flights c)) (fresh c)
  | None => c
  end.

Definition step (c : session) (e : event) : session :=
  match e with
  | Typed text => update (handleInputChange text) c
  | Selected files => update (handleFileChange files) c
  | Toggled checked => update (setIsThinkingMode checked) c
  | ReportClicked => launch handleGenerateReport c
  | ArticleClicked => launch handleSubmitArticle c
  | Settled t outcome => deliver t outcome c
  end.

Definition replay (es : list event) (c : session) : session := fold_left step es c.

(** The events the markup offers: a button that is rendered and not
    disabled can be clicked, the checkbox is part of the report card, and a
    call that is in flight can settle. *)
Definition offered (e : event) (c : session) : bool :=
  match e with
  | Typed _ | Selected _ => true
  | Toggled _ => reportShown (ui c)
  | ReportClicked => negb (reportDisabled (ui c))
  | ArticleClicked => reportShown (ui c) && negb (articleDisabled (ui c))
  | Settled t _ => match pending t c with Some _ => true | None => false end
  end.

Fixpoint feasible (es : list event) (c : session) : bool :=
  match es with
  | [] => true
  | e :: es' => offered e c && feasible es' (step c e)
  end.

End Component.

(* ===================================================================== *)
(** * The vocabulary of the properties *)
(* ===================================================================== *)

Module Spec.

Import Service Component.

(** ** What a match is

    [run r st st']: the pattern [r] can take the matcher from [st] to
    [st'].  The relation says which matches exist; the matcher [m] chooses
    among them. *)
Inductive run : regex -> mstate -> mstate -> Prop :=
| run_empty st : run Empty st st
| run_chr c st rest :
    after st = c :: rest ->
    run (Chr c) st (MState (c :: before st) rest (caps st))
| run_class p d st rest :
    after st = d :: rest -> p d = true ->
    run (Class p) st (MState (d :: before st) rest (caps st))
| run_seq r1 r2 st mid st' :
    run r1 st mid -> run r2 mid st' -> run (Seq r1 r2) st st'
| run_alt_l r1 r2 st st' : run r1 st st' -> run (Alt r1 r2) st st'
| run_alt_r r1 r2 st st' : run r2 st st' -> run (Alt r1 r2) st st'
| run_star_stop g r st : run (Star g r) st st
| run_star_step g r st mid st' :
    run r (MState (before st) (after st) (clear (groups r) (caps st))) mid ->
    length (after mid) < length (after st) ->
    run (Star g r) mid st' ->
    run (Star g r) st st'
| run_group i r st st1 :
    run r st st1 ->
    run (Group i r) st
      (MState (before st1) (after st1) ((i, consumed (after st) (after st1)) :: caps st1))
| run_bol st : before st = [] -> run Bol st st
| run_notbehind w st :
    startsWith (rev w) (before st) = false -> run (NotBehind w) st st.

(** ** Segmentation *)

(** The blocks that pass the guard of the callback, trimmed: what is
    rendered. *)
Definition segments (markdown : jsstring) : list jsstring :=
  filter (fun b => negb (is_empty b)) (map trim (blocks markdown)).

(** A line break of [/(\r?\n){2,}/], and a run of one or more of them. *)
Definition is_break (w : jsstring) : Prop := w = nl \/ w = cr ++ nl.

Inductive breaks : jsstring -> Prop :=
| breaks_one w : is_break w -> breaks w
| breaks_more w v : is_break w -> breaks v -> breaks (w ++ v).

(** A text that starts with a line break, without it. *)
Definition strip_break (s : jsstring) : option jsstring :=
  match s with
  | c :: s' =>
      if (c =? 10)%N then Some s'
      else if (c =? 13)%N then
        match s' with
        | d :: s'' => if (d =? 10)%N then Some s'' else None
        | [] => None
        end
      else None
  | [] => None
  end.

(** A text that starts with two line breaks. *)
Definition starts_blank (s : jsstring) : bool :=
  match strip_break s with
  | Some s' => match strip_break s' with Some _ => true | None => false end
  | None => false
  end.

(** [holds hit s]: [hit] is true of [s] from some position on.
    [none_within hit piece rest]: [hit] is false from every position of
    [piece] on, in [piece] followed by [rest]. *)
Fixpoint holds (hit : jsstring -> bool) (s : jsstring) : bool :=
  hit s || match s with [] => false | _ :: s' => holds hit s' end.

Fixpoint none_within (hit : jsstring -> bool) (piece rest : jsstring) : bool :=
  match piece with
  | [] => true
  | _ :: piece' => negb (hit (piece ++ rest)) && none_within hit piece' rest
  end.

(** [cut s l]: [l] lists, in the order of the text, the pieces of [s]
    between its separators, and after each piece but the last the line
    break that the group of the pattern captured last; a separator is a run
    of two or more line breaks, and no piece holds one. *)
Inductive cut : jsstring -> list jsstring -> Prop :=
| cut_last s : holds starts_blank s = false -> cut s [s]
| cut_more p w b s l :
    holds starts_blank p = false -> breaks w -> is_break b -> cut s l ->
    cut (p ++ (w ++ b) ++ s) (p :: b :: l).

(** The two fence markers of [/```markdown\n|```/g]. *)
Inductive fence : jsstring -> Prop :=
| fence_markdown : fence (str "```markdown" ++ nl)
| fence_plain : fence (str "```").

(** A text that starts with a fence marker: with three backticks. *)
Definition starts_fence (s : jsstring) : bool := startsWith (str "```") s.

(** A text wrapped in a code fence: it opens and closes with the marker. *)
Definition wrapped_in_fence (s : jsstring) : bool :=
  startsWith (str "```") (trim s) && startsWith (str "```") (rev (trim s)).

(** ** Tables *)

(** A row whose cells consist only of dashes and colons. *)
Definition dash_cell (cell : jsstring) : bool :=
  negb (is_empty cell) && forallb (fun c => is_char "-" c || is_char ":" c) cell.

Definition dash_row (row : jsstring) : bool :=
  negb (length (cells row) =? 0) && forallb dash_cell (cells row).

(** ** Quotes *)

(** A line without its quote marker: [>] and one white space after it. *)
Definition strip_marker (line : jsstring) : jsstring :=
  match line with
  | c :: rest =>
      if is_char ">" c then
        match rest with
        | d :: rest' => if is_space d then rest' else rest
        | [] => []
        end
      else line
  | [] => []
  end.

(** ** Reading the markup *)

(** How often [w] occurs in [s]. *)
Fixpoint occurrences (w s : jsstring) : nat :=
  match s with
  | [] => 0
  | _ :: s' => (if startsWith w s then 1 else 0) + occurrences w s'
  end.

Fixpoint until_quote (s : jsstring) : jsstring :=
  match s with
  | [] => []
  | c :: s' => if (c =? 34)%N then [] else c :: until_quote s'
  end.

(** The targets of the hyperlink elements of [s], in order. *)
Fixpoint link_targets (s : jsstring) : list jsstring :=
  match s with
  | [] => []
  | _ :: s' =>
      if startsWith (str "<a href=" ++ dq) s
      then until_quote (skipn 9 s) :: link_targets s'
      else link_targets s'
  end.

(** ** Citations *)

Definition citation (t u : jsstring) : GroundingChunk :=
  {| web := Some {| title := Some t; uri := Some u |} |}.

(** ** The inputs the specification names *)

(** The group [(\r?\n)] of the blank-line pattern. *)
Definition break_group : regex := Group 1 (Cat [Opt (Chr 13%N); Chr 10%N]).


Definition ex_links : jsstring := str "[x](http://a.com) http://b.com".

Definition ex_citations : list GroundingChunk :=
  [citation (str "A") (str "u1"); citation (str "A") (str "u1"); citation (str "B") []].

(** A pipe-led block none of whose rows has only dash cells, one of whose
    rows holds a dash cell between two others. *)
Definition ex_dash_cell : jsstring := str "| A | B |" ++ nl ++ str "| x |---| y |".

(** A text with a fence marker inside, not around it. *)
Definition ex_inner_fence : jsstring := str "a```b".

(** A block whose lines start with [>], none with [>] and a space. *)
Definition ex_tight_quote : jsstring := str ">a" ++ nl ++ str ">b".

(** A response with the citations of the specification. *)
Definition ex_response (report : jsstring) : Response :=
  {| text := report;
     candidates :=
       Some [{| groundingMetadata := Some {| groundingChunks := Some ex_citations |} |}] |}.

(** ** The two generation requests *)

Inductive generation : Type := Report | Article.

Definition handler_of (g : generation) : M async :=
  match g with Report => handleGenerateReport | Article => handleSubmitArticle end.

(** The result slot of a generation. *)
Definition slot_of (g : generation) : state -> jsstring :=
  match g with Report => summary | Article => article end.

(** ** Lists, headings and paragraphs *)

(** The bullet of [/^\s*[-*]\s*/]. *)
Definition is_bullet (c : char) : bool := is_char "-" c || is_char "*" c.

(** A line without its list marker and the white space around it, for a
    marker that is one code unit ([bullet]) or a run of digits and a dot. *)
Definition strip_bullet (line : jsstring) : jsstring :=
  match trimStart line with
  | c :: rest => if is_bullet c then trimStart rest else line
  | [] => line
  end.

Fixpoint skip_digits (s : jsstring) : jsstring :=
  match s with
  | c :: s' => if is_digit c then skip_digits s' else s
  | [] => []
  end.

Definition strip_number (line : jsstring) : jsstring :=
  match trimStart line with
  | c :: rest =>
      if is_digit c then
        match skip_digits rest with
        | d :: rest' => if is_char "." d then trimStart rest' else line
        | [] => line
        end
      else line
  | [] => line
  end.

(** A text with every line feed replaced by a line break element. *)
Definition with_line_breaks (s : jsstring) : jsstring :=
  flat_map (fun c => if (c =? 10)%N then str "<br />" else [c]) s.


(** A state with one cell replaced. *)
Definition with_error (e : jsstring) (s : state) : state :=
  State (mainInput s) (videoFile s) (summary s) (article s) (isLoading s) e
    (isThinkingMode s).

(** A line feed or a carriage return. *)
Definition is_eol (c : char) : bool := ((c =? 10) || (c =? 13))%N.

(** A text without its longest prefix in one class. *)
Fixpoint skip_class (p : char -> bool) (s : jsstring) : jsstring :=
  match s with
  | c :: s' => if p c then skip_class p s' else s
  | [] => []
  end.




(** ** Sessions *)

Definition initial (s : state) : session := Session s [] 0.

Definition generation_of (request : call) : generation :=
  match request with
  | GenerateArticle _ _ => Article
  | _ => Report
  end.


Definition clicked (g : generation) : event :=
  match g with Report => ReportClicked | Article => ArticleClicked end.

(** The button of a generation is rendered and enabled. *)
Definition available (g : generation) (s : state) : bool :=
  match g with
  | Report => negb (reportDisabled s)
  | Article => reportShown s && negb (articleDisabled s)
  end.

(** The message a failed generation shows. *)
Definition failure_of (g : generation) : jsstring :=
  match g with
  | Report => str "Failed to generate the report. Please check the console for details."
  | Article => str "Failed to generate the article. Please check the console for details."
  end.

(** The cells after a call of a generation has settled: a result goes to
    the slot of the generation, a failure to the error message, and the
    loading indicator is cleared. *)
Definition settled_cells (g : generation) (outcome : result jsstring) (s : state) : state :=
  match outcome with
  | inr res =>
      State (mainInput s) (videoFile s)
        (match g with Report => res | Article => summary s end)
        (match g with Report => article s | Article => res end)
        None (error s) (isThinkingMode s)
  | inl _ =>
      State (mainInput s) (videoFile s) (summary s) (article s) None (failure_of g)
        (isThinkingMode s)
  end.

(** An event of the user, as opposed to the settlement of a call. *)
Definition by_user (e : event) : bool :=
  match e with Settled _ _ => false | _ => true end.



(** The calls in flight of a session that the handlers made: each has a
    ticket below the next one, and its continuation does what a settled
    call of its generation does. *)
Definition well_formed (c : session) : Prop :=
  forall f, In f (flights c) ->
    ticket f < fresh c /\
    forall outcome s,
      snd (flight_resume f outcome s) = settled_cells (generation_of (flight_call f)) outcome s.

(** The cells between the click that issues a call of generation [g] and
    the next settlement of a call: the article slot is empty, and either
    the loading indicator is that of [g], or a report is loading and the
    report slot is empty. *)
Definition flying (g : generation) (s : state) : Prop :=
  article s = [] /\
  match g with
  | Report => isLoading s = Some LoadingSummary /\ summary s = []
  | Article =>
      isLoading s = Some LoadingArticle \/
      (isLoading s = Some LoadingSummary /\ summary s = [])
  end.

(** ** Segmentation, in the words of the specification *)

(** The text without its fence markers, read from the left: where the
    marker with the language tag and the line feed stands it is taken out,
    elsewhere the three backticks; [skip] counts the code units of a marker
    still to be passed over. *)
Fixpoint without_fences_from (skip : nat) (s : jsstring) : jsstring :=
  match s with
  | [] => []
  | c :: s' =>
      match skip with
      | S k => without_fences_from k s'
      | O =>
          if startsWith (str "```markdown" ++ nl) s then without_fences_from 11 s'
          else if startsWith (str "```") s then without_fences_from 2 s'
          else c :: without_fences_from 0 s'
      end
  end.

Definition without_fences (s : jsstring) : jsstring := without_fences_from 0 s.

(** The text after the line breaks it starts with. *)
Fixpoint after_breaks (s : jsstring) : jsstring :=
  match s with
  | c :: s' =>
      if (c =? 10)%N then after_breaks s'
      else if (c =? 13)%N then
        match s' with
        | d :: s'' => if (d =? 10)%N then after_breaks s'' else s
        | [] => s
        end
      else s
  | [] => []
  end.

(** The pieces of a text between its runs of two or more line breaks, each
    run taken as long as it is; [cur] is the piece being read, reversed,
    and [n] bounds the code units still to be read. *)
Fixpoint pieces_from (n : nat) (cur s : jsstring) : list jsstring :=
  match n with
  | O => [rev cur ++ s]
  | S n' =>
      match s with
      | [] => [rev cur]
      | c :: s' =>
          if starts_blank s then rev cur :: pieces_from n' [] (after_breaks s)
          else pieces_from n' (c :: cur) s'
      end
  end.

Definition pieces (s : jsstring) : list jsstring := pieces_from (S (length s)) [] s.

(** The segmentation as the specification words it: without the fence
    markers, trimmed, cut at the blank lines, each piece trimmed and the
    empty ones left out. *)
Definition segmented (markdown : jsstring) : list jsstring :=
  filter (fun b => negb (is_empty b)) (map trim (pieces (trim (without_fences markdown)))).

(** A provider and a reader that fail every call. *)
Definition failing_provider : Request -> result Response := fun _ => inl (str "503").
Definition failing_reader : File -> result jsstring := fun _ => inl (str "unreadable").

(** A state with a pasted transcript, a report and an article on display. *)
Definition ex_state : state :=
  {| mainInput := str "a transcript"; videoFile := None;
     summary := str "# Old report"; article := str "Old article";
     isLoading := None; error := []; isThinkingMode := true |}.

Definition ex_video : File := {| name := str "talk.mp4"; type := str "video/mp4" |}.
Definition ex_image : File := {| name := str "slide.png"; type := str "image/png" |}.

End Spec.

Import Spec.

(* ===================================================================== *)
(** * Strings: facts *)
(* ===================================================================== *)

Section StringFacts.

Lemma eqb_eq (s t : jsstring) : JS.eqb s t = true <-> s = t.
Proof.
  revert t; induction s as [|c s IH]; intros [|d t]; simpl; split; try congruence; auto.
  - intros H. apply andb_true_iff in H as [H1 H2].
    apply N.eqb_eq in H1. apply IH in H2. congruence.
  - intros H. injection H as -> ->. rewrite N.eqb_refl. simpl. now apply IH.
Qed.

Lemma startsWith_app (p s : jsstring) : startsWith p (p ++ s) = true.
Proof. induction p as [|c p IH]; simpl; [reflexivity|]. now rewrite N.eqb_refl. Qed.

Lemma startsWith_split (p s : jsstring) :
  startsWith p s = true -> s = p ++ skipn (length p) s.
Proof.
  revert s; induction p as [|c p IH]; intros [|d s]; simpl; try congruence.
  intros H. apply andb_true_iff in H as [H1 H2].
  apply N.eqb_eq in H1. subst d. f_equal. now apply IH.
Qed.

Lemma join_empty (a : list jsstring) : join [] a = concat a.
Proof.
  induction a as [|x [|y a] IH]; simpl in *; [reflexivity | now rewrite app_nil_r |].
  now rewrite <- IH.
Qed.

Lemma trimStart_idem (s : jsstring) : trimStart (trimStart s) = trimStart s.
Proof.
  induction s as [|c s IH]; simpl; [reflexivity|].
  destruct (is_space c) eqn:E; [assumption|]. simpl. now rewrite E.
Qed.

(** Trimming the end keeps a first code unit that is no white space. *)
Lemma trimStart_snoc (s : jsstring) (c : char) :
  is_space c = false -> exists u, trimStart (s ++ [c]) = u ++ [c].
Proof.
  intros E. induction s as [|d s [u IH]]; simpl.
  - rewrite E. now exists [].
  - destruct (is_space d); [now exists u|]. now exists (d :: s).
Qed.

Lemma trimEnd_head (c : char) (s : jsstring) :
  is_space c = false -> exists u, trimEnd (c :: s) = c :: u.
Proof.
  intros E. unfold trimEnd. simpl.
  destruct (trimStart_snoc (rev s) c E) as [u ->].
  exists (rev u). now rewrite rev_app_distr.
Qed.

Lemma trimStart_head (s : jsstring) :
  trimStart s = [] \/ exists c u, trimStart s = c :: u /\ is_space c = false.
Proof.
  induction s as [|c s IH]; simpl; [now left|].
  destruct (is_space c) eqn:E; [assumption|]. right. now exists c, s.
Qed.

Lemma trimEnd_idem (s : jsstring) : trimEnd (trimEnd s) = trimEnd s.
Proof. unfold trimEnd. now rewrite rev_involutive, trimStart_idem. Qed.

Lemma trim_idem (s : jsstring) : trim (trim s) = trim s.
Proof.
  unfold trim. destruct (trimStart_head s) as [-> | (c & u & -> & E)]; [reflexivity|].
  destruct (trimEnd_head c u E) as [v Hv]. rewrite Hv. simpl. rewrite E.
  rewrite <- Hv. apply trimEnd_idem.
Qed.

Lemma findIndex_from_none (A : Type) (p : A -> bool) (a : list A) (i : Z) :
  (forall x, In x a -> p x = false) -> findIndex_from p i a = (-1)%Z.
Proof.
  revert i; induction a as [|x a IH]; intros i H; simpl; [reflexivity|].
  rewrite (H x (or_introl eq_refl)). apply IH. intros y Hy. apply H. now right.
Qed.

Lemma set_from_spec (a seen : list jsstring) :
  NoDup (set_from seen a) /\
  forall x, In x (set_from seen a) <-> In x a /\ ~ In x seen.
Proof.
  revert seen; induction a as [|y a IH]; intros seen; simpl.
  - split; [constructor | intuition].
  - destruct (existsb (JS.eqb y) seen) eqn:E.
    + apply existsb_exists in E as (z & Hz & Heq). apply eqb_eq in Heq. subst z.
      destruct (IH seen) as [Hn Hi]. split; [assumption|].
      intros x. rewrite Hi. intuition congruence.
    + assert (Hy : ~ In y seen).
      { intros Hin. apply Bool.not_true_iff_false in E. apply E.
        apply existsb_exists. exists y. split; [assumption | now apply eqb_eq]. }
      destruct (IH (y :: seen)) as [Hn Hi]. split.
      * constructor; [|assumption]. rewrite Hi. simpl. intuition.
      * intros x. simpl. rewrite Hi. simpl. split.
        -- intros [<- | [Hx Hs]]; [now auto|]. split; [now right | intuition].
        -- intros [[<- | Hx] Hs]; [now left|].
           destruct (list_eq_dec N.eq_dec y x) as [<- | Hne]; [now left|].
           right. split; [assumption|]. intros [Heq | Hin]; congruence.
Qed.

End StringFacts.

(* ===================================================================== *)
(** * The matcher only finds matches *)
(* ===================================================================== *)

Section MatcherFacts.

Lemma consumed_app (w s : jsstring) : consumed (w ++ s) s = w.
Proof.
  unfold consumed. rewrite length_app.
  replace (length w + length s - length s) with (length w) by lia.
  rewrite firstn_app, Nat.sub_diag, firstn_all. simpl. apply app_nil_r.
Qed.

(** Every state the matcher hands to its continuation is the end of a
    match. *)
Lemma iterate_sound body gs g k (R : mstate -> mstate -> Prop) :
  (forall st k' res, body st k' = Some res -> exists st', R st st' /\ k' st' = Some res) ->
  forall n st res, iterate body gs g k n st = Some res ->
  exists st',
    clos_refl_trans_1n mstate
      (fun a b => R (MState (before a) (after a) (clear gs (caps a))) b
                  /\ length (after b) < length (after a)) st st'
    /\ k st' = Some res.
Proof.
  intros Hbody. induction n as [|n IHn]; intros st res H; simpl in H; [discriminate|].
  assert (Hagain :
    body (MState (before st) (after st) (clear gs (caps st)))
      (fun st' => if length (after st') <? length (after st)
                  then iterate body gs g k n st' else None) = Some res ->
    exists st',
      clos_refl_trans_1n mstate
        (fun a b => R (MState (before a) (after a) (clear gs (caps a))) b
                    /\ length (after b) < length (after a)) st st'
      /\ k st' = Some res).
  { intros Hr. apply Hbody in Hr as (mid & Hrun & Hk).
    destruct (Nat.ltb_spec (length (after mid)) (length (after st))) as [Hlt|]; [|discriminate].
    apply IHn in Hk as (st' & Hstar & Hk).
    exists st'. split; [|assumption]. econstructor; [split; eassumption | assumption]. }
  unfold orelse in H. destruct g.
  - match type of H with
    | match ?a with _ => _ end = _ => destruct a eqn:E
    end.
    + exact (Hagain H).
    + exists st. split; [constructor | assumption].
  - destruct (k st) eqn:E.
    + exists st. split; [constructor | congruence].
    + exact (Hagain H).
Qed.

Lemma m_sound (r : regex) :
  forall st k res, m r st k = Some res ->
  exists st', run r st st' /\ k st' = Some res.
Proof.
  induction r as [ | c | p | r1 IH1 r2 IH2 | r1 IH1 r2 IH2 | g r IH | i r IH | | w ];
    intros st k res H.
  - exists st. split; [constructor | assumption].
  - simpl in H. destruct (after st) as [|d rest] eqn:E; [discriminate|].
    destruct (N.eqb_spec c d) as [<- | _]; [|discriminate].
    eexists. split; [apply run_chr; eassumption | assumption].
  - simpl in H. destruct (after st) as [|d rest] eqn:E; [discriminate|].
    destruct (p d) eqn:Ep; [|discriminate].
    eexists. split; [eapply run_class; eassumption | assumption].
  - simpl in H. apply IH1 in H as (mid & H1 & H). apply IH2 in H as (st' & H2 & H).
    exists st'. split; [econstructor; eassumption | assumption].
  - simpl in H. unfold orelse in H. destruct (m r1 st k) eqn:E.
    + rewrite <- E in H. apply IH1 in H as (st' & H1 & H).
      exists st'. split; [now apply run_alt_l | assumption].
    + apply IH2 in H as (st' & H2 & H).
      exists st'. split; [now apply run_alt_r | assumption].
  - change (iterate (m r) (groups r) g k (S (length (after st))) st = Some res) in H.
    apply (iterate_sound _ _ _ _ (run r) IH) in H as (st' & Hstar & Hk).
    exists st'. split; [|assumption]. clear Hk.
    induction Hstar as [st | st mid st' [H1 H2] _ IHs]; [constructor|].
    eapply run_star_step; eassumption.
  - simpl in H. apply IH in H as (st1 & H1 & H).
    eexists. split; [apply run_group; eassumption | assumption].
  - simpl in H. destruct (before st) eqn:E; [|discriminate].
    exists st. split; [now constructor | assumption].
  - simpl in H. destruct (startsWith (rev w) (before st)) eqn:E; [discriminate|].
    exists st. split; [now constructor | assumption].
Qed.

(** A match consumes a prefix of the input and leaves the rest. *)
Lemma run_extends r st st' :
  run r st st' ->
  exists w, after st = w ++ after st' /\ before st' = rev w ++ before st.
Proof.
  induction 1 as [ st | c st rest E | p d st rest E Ep | r1 r2 st mid st' _ IH1 _ IH2
                 | r1 r2 st st' _ IH | r1 r2 st st' _ IH | g r st
                 | g r st mid st' _ IH1 Hlt _ IH2 | i r st st1 _ IH | st E | w st E ];
    simpl in *.
  - now exists [].
  - exists [c]. now rewrite E.
  - exists [d]. now rewrite E.
  - destruct IH1 as (w1 & A1 & B1), IH2 as (w2 & A2 & B2).
    exists (w1 ++ w2). rewrite A1, A2, B2, B1, rev_app_distr, !app_assoc. now split.
  - assumption.
  - assumption.
  - now exists [].
  - destruct IH1 as (w1 & A1 & B1), IH2 as (w2 & A2 & B2).
    exists (w1 ++ w2). rewrite A1, A2, B2, B1, rev_app_distr, !app_assoc. now split.
  - assumption.
  - now exists [].
  - now exists [].
Qed.

(** The relation read backwards, one lemma per construct. *)
Lemma run_empty_inv st st' : run Empty st st' -> st' = st.
Proof. now inversion 1. Qed.

Lemma run_chr_inv c st st' :
  run (Chr c) st st' ->
  exists rest, after st = c :: rest /\ st' = MState (c :: before st) rest (caps st).
Proof. inversion 1; subst. eauto. Qed.

Lemma run_seq_inv r1 r2 st st' :
  run (Seq r1 r2) st st' -> exists mid, run r1 st mid /\ run r2 mid st'.
Proof. inversion 1; subst. eauto. Qed.

Lemma run_alt_inv r1 r2 st st' :
  run (Alt r1 r2) st st' -> run r1 st st' \/ run r2 st st'.
Proof. inversion 1; subst; auto. Qed.

Lemma run_group_inv i r st st' :
  run (Group i r) st st' ->
  exists st1, run r st st1 /\
    st' = MState (before st1) (after st1) ((i, consumed (after st) (after st1)) :: caps st1).
Proof. inversion 1; subst. eauto. Qed.

End MatcherFacts.

(* ===================================================================== *)
(** * Searching, anchors and literal words *)
(* ===================================================================== *)

Section SearchFacts.

(** A successful attempt at the cursor. *)
Lemma m_found r bef aft st :
  m r (MState bef aft []) Some = Some st ->
  run r (MState bef aft []) st /\ aft = consumed aft (after st) ++ after st.
Proof.
  intros E. apply m_sound in E as (st' & Hrun & [= ->]). split; [assumption|].
  destruct (run_extends Hrun) as (w & Hw & _). simpl in Hw.
  rewrite Hw at 2. now rewrite consumed_app.
Qed.

(** What [search_from] finds is a match of the pattern, and the three parts
    it returns make up the text it searched. *)
Lemma search_from_sound r :
  forall aft bef skipped f,
  search_from r bef skipped aft = Some f ->
  rev skipped ++ aft = pre f ++ matched f ++ post f /\
  exists bef' st',
    run r (MState bef' (matched f ++ post f) []) st' /\
    after st' = post f /\ caps st' = groups_of f.
Proof.
  assert (Hit : forall aft bef skipped st,
    m r (MState bef aft []) Some = Some st ->
    let f := Found (rev skipped) (consumed aft (after st)) (caps st) (after st) in
    rev skipped ++ aft = pre f ++ matched f ++ post f /\
    exists bef' st',
      run r (MState bef' (matched f ++ post f) []) st' /\
      after st' = post f /\ caps st' = groups_of f).
  { intros aft bef skipped st E. apply m_found in E as [Hrun Hw]. simpl.
    rewrite <- Hw. split; [reflexivity|]. exists bef, st. auto. }
  induction aft as [|c aft IH]; intros bef skipped f H; simpl in H.
  - destruct (m r (MState bef [] []) Some) as [st|] eqn:E; [|discriminate].
    injection H as <-. exact (Hit _ _ _ _ E).
  - destruct (m r (MState bef (c :: aft) []) Some) as [st|] eqn:E.
    + injection H as <-. exact (Hit _ _ _ _ E).
    + apply IH in H as [H1 H2]. split; [|assumption].
      rewrite <- H1. simpl. now rewrite <- app_assoc.
Qed.

(** A pattern that opens with [^] matches at the start of the text or
    nowhere. *)
Lemma search_from_anchored r :
  forall aft bef skipped, bef <> [] -> search_from (Seq Bol r) bef skipped aft = None.
Proof.
  induction aft as [|c aft IH]; intros bef skipped Hb; simpl;
    destruct bef as [|b bef]; try congruence.
  apply IH. discriminate.
Qed.

Lemma exec_anchored r s :
  exec (Seq Bol r) s =
  match m r (MState [] s []) Some with
  | Some st => Some (Found [] (consumed s (after st)) (caps st) (after st))
  | None => None
  end.
Proof.
  unfold exec. destruct s as [|c s]; simpl.
  - now destruct (m r (MState [] [] []) Some).
  - destruct (m r (MState [] (c :: s) []) Some); [reflexivity|].
    apply search_from_anchored. discriminate.
Qed.

(** A literal word matches itself. *)
Lemma run_word w :
  forall st st', run (Word w) st st' -> after st = w ++ after st' /\ caps st' = caps st.
Proof.
  induction w as [|c w IH]; intros st st' H.
  - apply run_empty_inv in H as ->. now split.
  - change (Word (c :: w)) with (Seq (Chr c) (Word w)) in H.
    apply run_seq_inv in H as (mid & H1 & H2).
    apply run_chr_inv in H1 as (rest & E & ->).
    apply IH in H2 as [Ha Hc]. simpl in *. split; congruence.
Qed.

(** Positions at which a test fails: one more position, and the piece
    alone. *)
Lemma none_within_snoc hit p c aft :
  none_within hit p (c :: aft) = true -> hit (c :: aft) = false ->
  none_within hit (p ++ [c]) aft = true.
Proof.
  intros Hp Hc. induction p as [|d p IH]; simpl in *.
  - now rewrite Hc.
  - apply andb_true_iff in Hp as [Hd Hp]. rewrite <- app_assoc. simpl.
    rewrite Hd. simpl. now apply IH.
Qed.

Lemma none_within_holds hit :
  hit [] = false ->
  (forall s x, hit (s ++ x) = false -> hit s = false) ->
  forall p rest, none_within hit p rest = true -> holds hit p = false.
Proof.
  intros Hnil Hmono p rest. induction p as [|c p IH]; simpl.
  - intros _. now rewrite Hnil.
  - intros H. apply andb_true_iff in H as [Hc Hp]. apply negb_true_iff in Hc.
    apply (Hmono (c :: p)) in Hc. rewrite Hc. simpl. now apply IH.
Qed.

(** When the pattern matches wherever [hit] holds, the search passes over
    positions where [hit] fails only, and finds nothing only in a text that
    [hit] holds nowhere. *)
Section Skipped.

Variable r : regex.
Variable hit : jsstring -> bool.
Hypothesis hit_nil : hit [] = false.
Hypothesis hit_prefix : forall s x, hit (s ++ x) = false -> hit s = false.
Hypothesis hit_matches :
  forall bef aft, m r (MState bef aft []) Some = None -> hit aft = false.

Lemma search_from_skips :
  forall aft bef skipped f,
  search_from r bef skipped aft = Some f ->
  none_within hit (rev skipped) aft = true ->
  none_within hit (pre f) (matched f ++ post f) = true.
Proof.
  induction aft as [|c aft IH]; intros bef skipped f H Hs; simpl in H.
  - destruct (m r (MState bef [] []) Some) as [st|] eqn:E; [|discriminate].
    injection H as <-. apply m_found in E as [_ E]. cbn [pre matched post].
    now rewrite <- E.
  - destruct (m r (MState bef (c :: aft) []) Some) as [st|] eqn:E.
    + injection H as <-. apply m_found in E as [_ E]. cbn [pre matched post].
      now rewrite <- E.
    + apply (IH _ _ _ H). simpl. apply none_within_snoc; [assumption|].
      exact (hit_matches _ _ E).
Qed.

Lemma search_from_none :
  forall aft bef skipped,
  search_from r bef skipped aft = None ->
  none_within hit (rev skipped) aft = true ->
  holds hit (rev skipped ++ aft) = false.
Proof.
  induction aft as [|c aft IH]; intros bef skipped H Hs; simpl in H.
  - rewrite app_nil_r. exact (none_within_holds hit hit_nil hit_prefix _ _ Hs).
  - destruct (m r (MState bef (c :: aft) []) Some) as [st|] eqn:E; [discriminate|].
    replace (rev skipped ++ c :: aft) with (rev (c :: skipped) ++ aft)
      by (simpl; now rewrite <- app_assoc).
    apply (IH _ _ H). simpl. apply none_within_snoc; [assumption|].
    exact (hit_matches _ _ E).
Qed.

End Skipped.

End SearchFacts.

(* ===================================================================== *)
(** * The counts never run out *)
(* ===================================================================== *)

(** The quantifier, the global replacement and the split count their steps
    down from the length of the text; any count above that length gives the
    same result, so none of them ever stops for want of steps. *)

Section Counts.

Lemma iterate_ext body gs g k k' :
  (forall st k1 k2, (forall x, k1 x = k2 x) -> body st k1 = body st k2) ->
  (forall x, k x = k' x) ->
  forall n st, iterate body gs g k n st = iterate body gs g k' n st.
Proof.
  intros Hbody Hk. induction n as [|n IH]; intros st; simpl; [reflexivity|].
  rewrite (Hk st).
  rewrite (Hbody _ _ (fun st' => if length (after st') <? length (after st)
                                 then iterate body gs g k' n st' else None)).
  - reflexivity.
  - intros x. destruct (length (after x) <? length (after st)); [apply IH | reflexivity].
Qed.

(** The matcher depends on its continuation only through its results. *)
Lemma m_ext r :
  forall st k k', (forall x, k x = k' x) -> m r st k = m r st k'.
Proof.
  induction r as [ | c | p | r1 IH1 r2 IH2 | r1 IH1 r2 IH2 | g r IH | i r IH | | w ];
    intros st k k' Hk; simpl.
  - apply Hk.
  - destruct (after st) as [|d rest]; [reflexivity|]. now rewrite Hk.
  - destruct (after st) as [|d rest]; [reflexivity|]. now rewrite Hk.
  - apply IH1. intros x. now apply IH2.
  - now rewrite (IH1 st k k' Hk), (IH2 st k k' Hk).
  - apply (iterate_ext _ _ _ _ _ IH Hk (S (length (after st)))).
  - apply IH. intros x. apply Hk.
  - destruct (before st); [apply Hk | reflexivity].
  - destruct (startsWith (rev w) (before st)); [reflexivity | apply Hk].
Qed.

Lemma iterate_count r gs g k :
  forall n1 n2 st,
  length (after st) < n1 -> length (after st) < n2 ->
  iterate (m r) gs g k n1 st = iterate (m r) gs g k n2 st.
Proof.
  induction n1 as [|n1 IH]; intros [|n2] st H1 H2; try lia. simpl.
  rewrite (m_ext r _ _ (fun st' => if length (after st') <? length (after st)
                                   then iterate (m r) gs g k n2 st' else None)).
  - reflexivity.
  - intros x. destruct (Nat.ltb_spec (length (after x)) (length (after st))); [|reflexivity].
    apply IH; lia.
Qed.

Lemma search_from_length r :
  forall aft bef skipped f,
  search_from r bef skipped aft = Some f ->
  length (matched f) + length (post f) <= length aft.
Proof.
  induction aft as [|c aft IH]; intros bef skipped f H; simpl in H.
  - destruct (m r (MState bef [] []) Some) as [st|] eqn:E; [|discriminate].
    injection H as <-. apply m_found in E as [_ E]. cbn [matched post].
    apply (f_equal (@length _)) in E. rewrite length_app in E. lia.
  - destruct (m r (MState bef (c :: aft) []) Some) as [st|] eqn:E.
    + injection H as <-. apply m_found in E as [_ E]. cbn [matched post].
      apply (f_equal (@length _)) in E. rewrite length_app in E. lia.
    + apply IH in H. simpl. lia.
Qed.

Lemma replace_loop_count r tpl :
  forall n1 n2 bef aft,
  length aft < n1 -> length aft < n2 ->
  replace_loop n1 r tpl bef aft = replace_loop n2 r tpl bef aft.
Proof.
  induction n1 as [|n1 IH]; intros [|n2] bef aft H1 H2; try lia. simpl.
  destruct (search_from r bef [] aft) as [f|] eqn:E; [|reflexivity].
  apply search_from_length in E. do 2 f_equal.
  destruct (matched f) as [|x w], (post f) as [|c rest]; simpl in E;
    try reflexivity; try (f_equal; apply IH; simpl; lia); apply IH; simpl; lia.
Qed.

Lemma split_loop_count r :
  forall n1 n2 bef cur aft,
  length aft < n1 -> length aft < n2 ->
  split_loop n1 r bef cur aft = split_loop n2 r bef cur aft.
Proof.
  induction n1 as [|n1 IH]; intros [|n2] bef cur aft H1 H2; try lia.
  cbn [split_loop]. destruct aft as [|c aft]; [reflexivity|]. simpl in H1, H2.
  destruct (m r (MState bef (c :: aft) []) Some) as [st|] eqn:E;
    [|apply IH; lia].
  apply m_found in E as [_ E]. cbn [matched].
  destruct (consumed (c :: aft) (after st)) as [|x w] eqn:Ew.
  - destruct cur; [apply IH; lia|]. do 2 f_equal. apply IH; lia.
  - do 2 f_equal. apply (f_equal (@length _)) in E. rewrite length_app in E. simpl in E.
    apply IH; lia.
Qed.

End Counts.

(* ===================================================================== *)
(** * The patterns of the renderer *)
(* ===================================================================== *)

Section PatternFacts.

(** A match of the fence pattern is one of the two markers. *)
Lemma run_fence st st' :
  run re_fence st st' -> exists f, fence f /\ f <> [] /\ after st = f ++ after st'.
Proof.
  intros H. apply run_alt_inv in H as [H | H]; apply run_word in H as [H _].
  - exists (str "```markdown" ++ nl). split; [constructor | split; [discriminate | exact H]].
  - exists (str "```"). split; [constructor | split; [discriminate | exact H]].
Qed.

(** The fence pattern matches wherever three backticks start. *)
Lemma m_word_complete w :
  forall st k, startsWith w (after st) = true -> exists st', m (Word w) st k = k st'.
Proof.
  induction w as [|c w IH]; intros st k H; simpl.
  - now exists st.
  - destruct (after st) as [|d rest]; [discriminate|]. simpl in H.
    apply andb_true_iff in H as [Hc Hw]. rewrite Hc.
    apply (IH (MState (d :: before st) rest (caps st))). exact Hw.
Qed.

Lemma m_fence_complete bef aft :
  m re_fence (MState bef aft []) Some = None -> starts_fence aft = false.
Proof.
  intros H. destruct (starts_fence aft) eqn:E; [exfalso | reflexivity].
  destruct (m_word_complete (str "```") (MState bef aft []) Some E) as [st' Hst].
  unfold re_fence, W in H. cbn [m] in H. rewrite Hst in H.
  unfold orelse in H. now destruct (m (Word (str "```markdown" ++ nl)) _ _).
Qed.

Lemma startsWith_prefix p s x : startsWith p s = true -> startsWith p (s ++ x) = true.
Proof.
  revert s; induction p as [|c p IH]; intros [|d s]; simpl; try congruence.
  intros H. apply andb_true_iff in H as [-> H]. simpl. now apply IH.
Qed.

Lemma starts_fence_app s x : starts_fence (s ++ x) = false -> starts_fence s = false.
Proof.
  unfold starts_fence. intros H. destruct (startsWith (str "```") s) eqn:E; [|reflexivity].
  now rewrite (startsWith_prefix _ _ x E) in H.
Qed.

(** Taking a fence marker out from behind a piece that held none brings
    none in: the piece cannot end in backticks that the marker completed. *)
Lemma fence_gone pre marker rest out :
  none_within starts_fence pre (marker ++ rest) = true ->
  starts_fence marker = true ->
  holds starts_fence out = false ->
  holds starts_fence (pre ++ out) = false.
Proof.
  intros Hpre Hm Hout. induction pre as [|c pre IH]; [exact Hout|].
  simpl in Hpre. apply andb_true_iff in Hpre as [Hc Hpre]. apply negb_true_iff in Hc.
  change (holds starts_fence ((c :: pre) ++ out))
    with (starts_fence (c :: pre ++ out) || holds starts_fence (pre ++ out)).
  rewrite (IH Hpre), orb_false_r.
  destruct (starts_fence (c :: pre ++ out)) eqn:E; [exfalso | reflexivity].
  apply startsWith_split in Hm. rewrite Hm in Hc. clear Hm IH Hpre Hout.
  unfold starts_fence in *. change (str "```") with [96%N; 96%N; 96%N] in *.
  destruct pre as [|d [|e pre]]; cbn [app startsWith] in Hc, E.
  - apply andb_true_iff in E as [E1 _]. rewrite E1 in Hc. discriminate.
  - apply andb_true_iff in E as [E1 E]. apply andb_true_iff in E as [E2 _].
    rewrite E1, E2 in Hc. discriminate.
  - congruence.
Qed.

(** Replacing the fence pattern by nothing leaves no fence marker. *)
Lemma replace_fence_clean n :
  forall bef aft, length aft < n ->
  holds starts_fence (replace_loop n re_fence [] bef aft) = false.
Proof.
  induction n as [|n IH]; intros bef aft Hn; [lia|]. simpl.
  destruct (search_from re_fence bef [] aft) as [f|] eqn:E.
  - pose proof (search_from_length _ _ _ _ E) as Hlen.
    pose proof (search_from_skips re_fence starts_fence m_fence_complete _ _ _ E eq_refl)
      as Hskip.
    apply search_from_sound in E as (_ & bef' & st' & Hrun & Hafter & _).
    apply run_fence in Hrun as (w & Hf & Hne & Hw). simpl in Hw.
    rewrite Hafter in Hw. apply app_inv_tail in Hw.
    assert (Hstart : starts_fence (matched f) = true)
      by (rewrite Hw; destruct Hf; reflexivity).
    simpl. apply (fence_gone _ _ _ _ Hskip Hstart).
    destruct (matched f) as [|c m0]; [discriminate|]. apply IH. simpl in Hlen. lia.
  - exact (search_from_none re_fence starts_fence eq_refl starts_fence_app
             m_fence_complete _ _ _ E eq_refl).
Qed.

(** One line break of the blank-line pattern, with its capture. *)
Lemma run_break st st' :
  run break_group st st' ->
  exists b, is_break b /\ after st = b ++ after st' /\ caps st' = (1, b) :: caps st.
Proof.
  intros H. apply run_group_inv in H as (st1 & H & ->). simpl.
  change (Cat [Opt (Chr 13%N); Chr 10%N])
    with (Seq (Alt (Chr 13%N) Empty) (Seq (Chr 10%N) Empty)) in H.
  apply run_seq_inv in H as (mid & H1 & H2).
  apply run_seq_inv in H2 as (mid' & H2 & H3).
  apply run_empty_inv in H3 as ->.
  apply run_chr_inv in H2 as (rest & E & ->). simpl.
  apply run_alt_inv in H1 as [H1 | H1].
  - apply run_chr_inv in H1 as (rest' & E' & ->). simpl in *.
    exists (cr ++ nl). rewrite E', E.
    change (13%N :: 10%N :: rest) with ((cr ++ nl) ++ rest).
    rewrite consumed_app. split; [now right | now split].
  - apply run_empty_inv in H1 as ->.
    exists nl. rewrite E.
    change (10%N :: rest) with (nl ++ rest).
    rewrite consumed_app. split; [now left | now split].
Qed.

Lemma run_breaks st st' :
  run (Star true break_group) st st' ->
  st' = st \/
  exists w b cs,
    (w = [] \/ breaks w) /\ is_break b /\
    after st = w ++ b ++ after st' /\ caps st' = (1, b) :: cs.
Proof.
  intros H. remember (Star true break_group) as r eqn:Hr.
  induction H as [ | | | | | | g r0 st | g r0 st mid st' H1 _ Hlt H2 IH2 | | | ];
    try discriminate; [now left|].
  injection Hr as -> ->. right.
  apply run_break in H1 as (b0 & Hb0 & Ha & Hc). simpl in Ha.
  destruct (IH2 eq_refl) as [-> | (w & b & cs & Hw & Hb & Ha' & Hc')].
  - exists [], b0, (clear (groups break_group) (caps st)). simpl. auto.
  - exists (b0 ++ w), b, cs. rewrite Ha, Ha', <- app_assoc.
    repeat split; try assumption. right.
    destruct Hw as [-> | Hw]; [rewrite app_nil_r; now constructor | now constructor].
Qed.

(** A match of the blank-line pattern is a run of two or more line breaks,
    and its capture is the last of them. *)
Lemma run_blank st st' :
  run re_blank st st' ->
  exists w b,
    breaks w /\ is_break b /\ after st = (w ++ b) ++ after st' /\
    capture 1 (caps st') = Some b.
Proof.
  intros H. change re_blank with (Seq break_group (Seq break_group (Star true break_group))) in H.
  apply run_seq_inv in H as (mid & H1 & H).
  apply run_seq_inv in H as (mid' & H2 & H3).
  apply run_break in H1 as (b1 & Hb1 & Ha1 & Hc1).
  apply run_break in H2 as (b2 & Hb2 & Ha2 & Hc2).
  apply run_breaks in H3 as [-> | (w & b & cs & Hw & Hb & Ha & Hc)].
  - exists b1, b2. rewrite Ha1, Ha2, Hc2, <- app_assoc. simpl.
    repeat split; try assumption. now constructor.
  - exists (b1 ++ b2 ++ w), b. rewrite Ha1, Ha2, Ha, Hc, <- !app_assoc. simpl.
    repeat split; try assumption.
    apply breaks_more; [assumption|].
    destruct Hw as [-> | Hw]; [rewrite app_nil_r; now constructor | now constructor].
Qed.

Lemma is_break_nonempty b : is_break b -> b <> [].
Proof. intros [-> | ->]; discriminate. Qed.

(** The blank-line pattern matches wherever two line breaks start. *)
Lemma m_break_complete st k s1 :
  strip_break (after st) = Some s1 ->
  exists st1, after st1 = s1 /\ (m break_group st k = None -> k st1 = None).
Proof.
  unfold strip_break. destruct (after st) as [|c rest] eqn:E; [discriminate|].
  destruct (N.eqb_spec c 10) as [-> | Hc].
  - intros [= <-]. unfold break_group, Cat, Opt. cbn [m fold_right]. rewrite E.
    cbn [N.eqb Pos.eqb orelse after before caps].
    eexists (MState _ rest _). split; [reflexivity | intros H; exact H].
  - destruct (N.eqb_spec c 13) as [-> | Hc']; [|discriminate].
    destruct rest as [|d rest]; [discriminate|].
    destruct (N.eqb_spec d 10) as [-> | Hd]; [|discriminate].
    intros [= <-]. unfold break_group, Cat, Opt. cbn [m fold_right]. rewrite E.
    cbn [N.eqb Pos.eqb orelse after before caps].
    eexists (MState _ rest _). split; [reflexivity|].
    unfold orelse. intros H.
    match type of H with match ?a with _ => _ end = _ => destruct a eqn:Ek end;
      [discriminate | exact Ek].
Qed.

Lemma m_blank_complete bef aft :
  m re_blank (MState bef aft []) Some = None -> starts_blank aft = false.
Proof.
  intros H. unfold starts_blank.
  destruct (strip_break aft) as [s1|] eqn:E1; [|reflexivity].
  destruct (strip_break s1) as [s2|] eqn:E2; [|reflexivity]. exfalso.
  change re_blank with (Seq break_group (Seq break_group (Star true break_group))) in H.
  cbn [m] in H.
  destruct (m_break_complete (MState bef aft [])
              (fun st' => m break_group st'
                 (fun st'0 => m (Star true break_group) st'0 Some)) E1)
    as (st1 & Ha1 & H1).
  specialize (H1 H). rewrite <- Ha1 in E2.
  destruct (m_break_complete st1 (fun st'0 => m (Star true break_group) st'0 Some) E2)
    as (st2 & _ & H2).
  specialize (H2 H1). cbn [m iterate] in H2. unfold orelse in H2.
  match type of H2 with match ?a with _ => _ end = _ => destruct a end; discriminate.
Qed.

Lemma strip_break_app s s' x : strip_break s = Some s' -> strip_break (s ++ x) = Some (s' ++ x).
Proof.
  unfold strip_break. destruct s as [|c s]; [discriminate|]. simpl.
  destruct (c =? 10)%N; [now intros [= ->]|].
  destruct (c =? 13)%N; [|discriminate].
  destruct s as [|d s]; [discriminate|]. simpl.
  destruct (d =? 10)%N; [now intros [= ->] | discriminate].
Qed.

Lemma starts_blank_app s x : starts_blank (s ++ x) = false -> starts_blank s = false.
Proof.
  unfold starts_blank. intros H.
  destruct (strip_break s) as [s1|] eqn:E1; [|reflexivity].
  rewrite (strip_break_app _ x E1) in H.
  destruct (strip_break s1) as [s2|] eqn:E2; [|reflexivity].
  now rewrite (strip_break_app _ x E2) in H.
Qed.

(** Splitting on the blank-line pattern cuts the text at its runs of line
    breaks, in order, and leaves none inside a piece. *)
Lemma split_blank_cut n :
  forall bef cur aft,
  length aft < n -> none_within starts_blank (rev cur) aft = true ->
  cut (rev cur ++ aft) (split_loop n re_blank bef cur aft).
Proof.
  induction n as [|n IH]; intros bef cur aft Hn Hcur; [lia|].
  cbn [split_loop]. destruct aft as [|c aft].
  - rewrite app_nil_r. apply cut_last.
    exact (none_within_holds _ eq_refl starts_blank_app _ _ Hcur).
  - simpl in Hn. destruct (m re_blank (MState bef (c :: aft) []) Some) as [st|] eqn:E.
    + apply m_sound in E as (st' & Hrun & [= ->]).
      apply run_blank in Hrun as (w & b & Hw & Hb & Ha & Hc). simpl in Ha.
      cbn [matched]. rewrite Ha, consumed_app.
      destruct (w ++ b) as [|x wb] eqn:Ewb.
      { apply app_eq_nil in Ewb as [_ Hnil]. now apply is_break_nonempty in Hb. }
      rewrite <- Ewb.
      replace (captured (groups re_blank) _) with [b]
        by (unfold captured; simpl; now rewrite Hc).
      apply (cut_more (rev cur) (none_within_holds _ eq_refl starts_blank_app _ _ Hcur) Hw Hb).
      apply (IH (before st) [] (after st)); [|reflexivity].
      apply (f_equal (@length _)) in Ha. simpl in Ha. rewrite length_app in Ha. lia.
    + replace (rev cur ++ c :: aft) with (rev (c :: cur) ++ aft)
        by (simpl; now rewrite <- app_assoc).
      apply IH; [lia|]. simpl. apply none_within_snoc; [assumption|].
      now apply m_blank_complete in E.
Qed.

Lemma blocks_cut markdown : cut (cleanMarkdown markdown) (blocks markdown).
Proof.
  unfold blocks, Regex.split. destruct (cleanMarkdown markdown) as [|c s] eqn:E.
  - vm_compute. now apply cut_last.
  - apply (split_blank_cut [] [] (c :: s)); [simpl; lia | reflexivity].
Qed.

End PatternFacts.

(* ===================================================================== *)
(** * The renderer: facts *)
(* ===================================================================== *)

Section RendererFacts.

(** The list patterns are anchored, so a block that opens with a pipe
    matches neither. *)
Lemma test_bullet_pipe t : Regex.test re_bullet (124%N :: t) = false.
Proof.
  unfold Regex.test.
  change re_bullet with (Seq Bol (Cat [Group 1 (Alt (C "*") (C "-")); Space])).
  rewrite exec_anchored. vm_compute. reflexivity.
Qed.

Lemma test_number_pipe t : Regex.test re_number (124%N :: t) = false.
Proof.
  unfold Regex.test. change re_number with (Seq Bol (Cat [Plus Digit; C "."; Space])).
  rewrite exec_anchored. vm_compute. reflexivity.
Qed.

(** A pipe-led block whose rows hold no separator below the first row is
    rendered by the last branch. *)
Lemma pipe_block_falls_through t :
  (separatorIndex (rows (124%N :: t)) <= 0)%Z ->
  render_trimmed (124%N :: t) = paragraph (124%N :: t).
Proof.
  intros H. unfold render_trimmed.
  replace (0 <? separatorIndex (rows (124%N :: t)))%Z with false
    by (symmetry; apply Z.ltb_ge; exact H).
  rewrite andb_false_r, test_bullet_pipe, test_number_pipe. reflexivity.
Qed.

(** What the quote branch removes from a line. *)
Lemma replace_quote_marker line :
  Regex.replace re_quote_marker [] line = strip_marker line.
Proof.
  unfold Regex.replace. change re_quote_marker with (Seq Bol (Cat [C ">"; Opt Space])).
  rewrite exec_anchored. destruct line as [|c rest]; [reflexivity|].
  unfold strip_marker, is_char. change (ch ">") with 62%N.
  cbn [m Cat fold_right C Opt Space after before caps]. change (ch ">") with 62%N.
  rewrite (N.eqb_sym 62 c). destruct (c =? 62)%N eqn:E; [|reflexivity].
  destruct rest as [|d rest]; cbn [orelse after before caps]; [reflexivity|].
  destruct (is_space d); reflexivity.
Qed.

(** A block that opens with [>] and a space reaches the quote branch. *)
Lemma quote_block_branch t :
  render_trimmed (62%N :: 32%N :: t) = blockquote (62%N :: 32%N :: t).
Proof. reflexivity. Qed.

(** Rendering the blocks is rendering the segments: a block that is empty
    once trimmed contributes nothing. *)
Lemma render_blocks_segments (l : list jsstring) :
  concat (map render_block l) =
  concat (map render_trimmed (filter (fun b => negb (is_empty b)) (map trim l))).
Proof.
  induction l as [|b l IH]; simpl; [reflexivity|].
  unfold render_block at 1. destruct (is_empty (trim b)); simpl; now rewrite IH.
Qed.

Lemma segment_trimmed markdown b :
  In b (segments markdown) -> b <> [] /\ trim b = b.
Proof.
  unfold segments. intros H. apply filter_In in H as [H Hne].
  apply in_map_iff in H as (b0 & <- & _). split.
  - intros E. now rewrite E in Hne.
  - apply trim_idem.
Qed.

End RendererFacts.

(* ===================================================================== *)
(** * The renderer: the properties of the specification *)
(* ===================================================================== *)

Section RendererProperties.

(** C1, as the code has it.  A block whose trimmed text begins with a pipe
    and none of whose pipe-led rows contains a match of the separator
    pattern of the source (a pipe, then one or more cells of dashes with
    optional colons and white space, each closed by a pipe, anywhere in the
    row) is rendered as a paragraph, never as a table. *)
Theorem pipe_block_without_separator_is_paragraph (block : jsstring) :
  startsWith (str "|") (trim block) = true ->
  (forall row, In row (rows (trim block)) -> Regex.test re_separator row = false) ->
  render_block block =
    str "<p>"
      ++ Regex.replaceAll re_lf [Text (str "<br />")] (processInlines (trim block))
      ++ str "</p>".
Proof.
  intros Hp Hrows. change (render_block block = paragraph (trim block)).
  unfold render_block.
  destruct (trim block) as [|c t] eqn:E; [discriminate|].
  change (((124 =? c)%N && true) = true) in Hp.
  apply andb_true_iff in Hp as [Hc _]. apply N.eqb_eq in Hc. subst c.
  cbn [is_empty]. apply pipe_block_falls_through.
  unfold separatorIndex, findIndex. rewrite findIndex_from_none by exact Hrows. lia.
Qed.

Lemma pipe_block_without_separator_is_paragraph_witness :
  render_block (str "| a | b |") =
    str "<p>"
      ++ Regex.replaceAll re_lf [Text (str "<br />")] (processInlines (trim (str "| a | b |")))
      ++ str "</p>".
Proof.
  apply pipe_block_without_separator_is_paragraph.
  - vm_compute. reflexivity.
  - intros row H. vm_compute in H. destruct H as [<- | []]. vm_compute. reflexivity.
Defined.

(** C1, as stated, fails: no row of this block has only dash cells, yet the
    block is rendered as a table, because one row holds a dash cell between
    two pipes. *)
Lemma dash_cell_inside_row_makes_table :
  startsWith (str "|") (trim ex_dash_cell) = true /\
  forallb (fun row => negb (dash_row row)) (lines (trim ex_dash_cell)) = true /\
  render_block ex_dash_cell = render_table (rows (trim ex_dash_cell)) /\
  occurrences (str "<table") (render_block ex_dash_cell) = 1 /\
  occurrences (str "<p>") (render_block ex_dash_cell) = 0 /\
  render_block ex_dash_cell <> paragraph (trim ex_dash_cell).
Proof.
  repeat split; try (vm_compute; reflexivity). vm_compute. discriminate.
Qed.


(** C3, as stated, fails: this text is not wrapped in a fence, and the
    marker inside it is stripped all the same. *)
Lemma inner_fence_is_stripped :
  wrapped_in_fence ex_inner_fence = false /\
  segments ex_inner_fence = [str "ab"] /\
  segments ex_inner_fence <> [ex_inner_fence].
Proof. split; [|split]; vm_compute; [reflexivity | reflexivity | discriminate]. Qed.

(** C4.  The line of the specification yields two hyperlink elements, to
    http://a.com and to http://b.com, and neither is wrapped twice. *)
Theorem links_example :
  processInlines ex_links =
    str "<a href=" ++ q "http://a.com" ++ str " target=" ++ q "_blank"
      ++ str " rel=" ++ q "noopener noreferrer"
      ++ str " class=" ++ q "text-blue-400 hover:underline" ++ str ">x</a>"
      ++ str " "
      ++ str "<a href=" ++ q "http://b.com" ++ str " target=" ++ q "_blank"
      ++ str " rel=" ++ q "noopener noreferrer"
      ++ str " class=" ++ q "text-blue-400 hover:underline break-all" ++ str ">http://b.com</a>" /\
  link_targets (processInlines ex_links) = [str "http://a.com"; str "http://b.com"] /\
  occurrences (str "<a ") (processInlines ex_links) = 2 /\
  occurrences (str "</a>") (processInlines ex_links) = 2.
Proof. repeat split; vm_compute; reflexivity. Qed.

(** C5, as the code has it.  A block whose trimmed text begins with [>] and
    a space is rendered as a quoted block; its content is the lines of the
    block, each without a leading [>] and one white space after it (a line
    that does not start with [>] is kept whole), joined with a single space,
    with the inline transformation applied. *)
Theorem quote_block (block : jsstring) :
  startsWith (str "> ") (trim block) = true ->
  render_block block =
    str "<blockquote class="
      ++ q "border-l-4 border-neutral-600 pl-4 my-4 italic text-neutral-400" ++ str ">"
      ++ processInlines (join (str " ") (map strip_marker (lines (trim block))))
      ++ str "</blockquote>".
Proof.
  intros Hp.
  replace (join (str " ") (map strip_marker (lines (trim block))))
    with (quoteContent (trim block))
    by (unfold quoteContent; f_equal; apply map_ext; exact replace_quote_marker).
  change (render_block block = blockquote (trim block)).
  unfold render_block.
  destruct (trim block) as [|c [|d t]]; try discriminate.
  { change (((62 =? c)%N && false) = true) in Hp. now rewrite andb_false_r in Hp. }
  change (((62 =? c)%N && ((32 =? d)%N && true)) = true) in Hp.
  apply andb_true_iff in Hp as [Hc Hd].
  apply andb_true_iff in Hd as [Hd _].
  apply N.eqb_eq in Hc, Hd. subst c d. apply quote_block_branch.
Qed.

Lemma quote_block_witness :
  render_block (str "> a" ++ nl ++ str ">b" ++ nl ++ str "c") =
    str "<blockquote class="
      ++ q "border-l-4 border-neutral-600 pl-4 my-4 italic text-neutral-400" ++ str ">"
      ++ processInlines
           (join (str " ")
              (map strip_marker (lines (trim (str "> a" ++ nl ++ str ">b" ++ nl ++ str "c")))))
      ++ str "</blockquote>".
Proof. apply quote_block. vm_compute. reflexivity. Defined.

(** C5, as stated, fails: every line of this block starts with [>], the
    block is neither a table nor a heading, and it is rendered as a
    paragraph. *)
Lemma tight_quote_is_paragraph :
  forallb (startsWith (str ">")) (lines (trim ex_tight_quote)) = true /\
  startsWith (str "|") (trim ex_tight_quote) = false /\
  startsWith (str "#") (trim ex_tight_quote) = false /\
  render_block ex_tight_quote = str "<p>>a<br />>b</p>" /\
  render_block ex_tight_quote <> blockquote (trim ex_tight_quote).
Proof.
  repeat split; try (vm_compute; reflexivity). vm_compute. discriminate.
Qed.

End RendererProperties.

(* ===================================================================== *)
(** * The service: the Sources section *)
(* ===================================================================== *)

Section ServiceProperties.

Import Service.

Lemma trim_nil : trim [] = [].
Proof. reflexivity. Qed.

(** The filter of [analyzeTextContent] keeps the citations that have a URI
    with something other than white space in it. *)
Lemma has_uri_spec (w : option Web) :
  has_uri w = true <-> exists w' u, w = Some w' /\ uri w' = Some u /\ trim u <> [].
Proof.
  split.
  - destruct w as [w'|]; [|discriminate]. unfold has_uri.
    destruct (uri w') as [[|c u]|] eqn:E; try discriminate.
    cbn [truthy andb]. intros H. exists w', (c :: u). repeat split; [assumption|].
    intros Hnil. now rewrite Hnil in H.
  - intros (w' & u & -> & Hu & Hne). unfold has_uri. rewrite Hu.
    destruct u as [|c u]; [now rewrite trim_nil in Hne|].
    cbn [truthy andb]. now destruct (trim (c :: u)).
Qed.

(** C6.  For every response that carries citations, the Sources section
    that [analyzeTextContent] appends lists each [[title](uri)] string once,
    and lists it exactly when it comes from a citation whose URI is present
    and not blank; for the citations of the specification it holds the
    entry for u1 once and none for the empty URI. *)
Theorem sources_section (response : Response) (chunks : list GroundingChunk)
    (instruction textContent : jsstring) :
  chunks_of response = Some chunks ->
  analyzeTextContent (fun _ => inr response) instruction textContent =
    inr (with_sources response) /\
  (sources chunks <> [] ->
   with_sources response =
     text response ++ nl ++ nl ++ str "## Sources" ++ nl ++ join nl (uniqueSources chunks)) /\
  NoDup (uniqueSources chunks) /\
  (forall entry, In entry (uniqueSources chunks) <->
     exists chunk w u,
       In chunk chunks /\ web chunk = Some w /\ uri w = Some u /\ trim u <> [] /\
       entry = source_link (Some w)) /\
  uniqueSources ex_citations = [str "[A](u1)"] /\
  with_sources (ex_response textContent) =
    textContent ++ nl ++ nl ++ str "## Sources" ++ nl ++ str "[A](u1)".
Proof.
  intros Hchunks. split; [reflexivity|]. split.
  { intros Hne. unfold with_sources. rewrite Hchunks.
    destruct (sources chunks) as [|x l] eqn:E; [now contradiction Hne|].
    destruct chunks as [|c chunks]; [discriminate|]. reflexivity. }
  destruct (set_from_spec (sources chunks) []) as [Hnodup Hin].
  split; [exact Hnodup|]. split.
  - intros entry. unfold uniqueSources, set_of. rewrite Hin. unfold sources.
    rewrite in_map_iff. split.
    + intros [(w & <- & Hw) _]. apply filter_In in Hw as [Hw Hu].
      apply in_map_iff in Hw as (chunk & Hweb & Hchunk).
      apply has_uri_spec in Hu as (w' & u & -> & Hu & Hne).
      exists chunk, w', u. auto.
    + intros (chunk & w & u & Hchunk & Hweb & Hu & Hne & ->). split; [|auto].
      exists (Some w). split; [reflexivity|]. apply filter_In. split.
      * apply in_map_iff. exists chunk. auto.
      * apply has_uri_spec. exists w, u. auto.
  - split; [vm_compute; reflexivity|].
    unfold with_sources.
    change (chunks_of (ex_response textContent)) with (Some ex_citations).
    change (text (ex_response textContent)) with textContent.
    replace (uniqueSources ex_citations) with [str "[A](u1)"] by (vm_compute; reflexivity).
    reflexivity.
Qed.

Lemma sources_section_witness :
  analyzeTextContent (fun _ => inr (ex_response (str "# Report"))) [] (str "a transcript") =
    inr (with_sources (ex_response (str "# Report"))) /\
  (sources ex_citations <> [] ->
   with_sources (ex_response (str "# Report")) =
     text (ex_response (str "# Report")) ++ nl ++ nl ++ str "## Sources" ++ nl
       ++ join nl (uniqueSources ex_citations)) /\
  NoDup (uniqueSources ex_citations) /\
  (forall entry, In entry (uniqueSources ex_citations) <->
     exists chunk w u,
       In chunk ex_citations /\ web chunk = Some w /\ uri w = Some u /\ trim u <> [] /\
       entry = source_link (Some w)) /\
  uniqueSources ex_citations = [str "[A](u1)"] /\
  with_sources (ex_response (str "a transcript")) =
    str "a transcript" ++ nl ++ nl ++ str "## Sources" ++ nl ++ str "[A](u1)".
Proof.
  apply (@sources_section (ex_response (str "# Report")) ex_citations [] (str "a transcript")).
  reflexivity.
Defined.

End ServiceProperties.

(* ===================================================================== *)
(** * The component: the handlers *)
(* ===================================================================== *)

Section ComponentProperties.

Import Service Component.

(** C9.  When [handleGenerateReport] passes its validation, it issues its
    call in a state whose report slot and article slot are both empty, and
    what it does once the call has settled leaves the article slot as it
    is: the article slot is empty when the handler completes, however the
    call settles. *)
Theorem report_generation_clears_article (s : state) :
  videoFile s <> None \/ trim (mainInput s) <> [] ->
  exists request resume s1,
    handleGenerateReport s = (Awaiting request resume, s1) /\
    summary s1 = [] /\ article s1 = [] /\
    (forall settled s2, article (snd (resume settled s2)) = article s2) /\
    (forall settle, article (complete settle handleGenerateReport s) = []).
Proof.
  intros Hvalid. unfold complete, handleGenerateReport, bind, get. cbn beta iota.
  assert (Hguard : match videoFile s with Some _ => false | None => true end
                   && is_empty (trim (mainInput s)) = false).
  { destruct Hvalid as [Hv | Hi].
    - now destruct (videoFile s).
    - destruct (trim (mainInput s)); [congruence|]. apply andb_false_r. }
  rewrite Hguard. cbn. do 3 eexists. split; [reflexivity|].
  split; [reflexivity|]. split; [reflexivity|]. split.
  - intros [e | res] s2; reflexivity.
  - intros settle. now destruct (settle _).
Qed.

Lemma report_generation_clears_article_witness :
  exists request resume s1,
    handleGenerateReport ex_state = (Awaiting request resume, s1) /\
    summary s1 = [] /\ article s1 = [] /\
    (forall settled s2, article (snd (resume settled s2)) = article s2) /\
    (forall settle, article (complete settle handleGenerateReport ex_state) = []).
Proof.
  apply report_generation_clears_article. right. vm_compute. discriminate.
Defined.

(** C10.  When a file is selected: a file whose type starts with [video/]
    becomes the stored video file, and the pasted text and the error are
    cleared; any other file sets the error message and resets the stored
    video file to null, whatever was stored before, and leaves the pasted
    text as it is. *)
Theorem file_selection (file : File) (others : list File) (s : state) :
  let s' := snd (handleFileChange (Some (file :: others)) s) in
  (startsWith (str "video/") (type file) = true ->
   videoFile s' = Some file /\ mainInput s' = [] /\ error s' = []) /\
  (startsWith (str "video/") (type file) = false ->
   error s' = str "Please select a valid video file." /\
   videoFile s' = None /\ mainInput s' = mainInput s).
Proof.
  unfold handleFileChange. cbn [opt nth_error].
  destruct (startsWith (str "video/") (type file)); cbn;
    split; intros H; try discriminate; repeat split; reflexivity.
Qed.

Lemma file_selection_witness :
  (let s' := snd (handleFileChange (Some [ex_video]) ex_state) in
   videoFile s' = Some ex_video /\ mainInput s' = [] /\ error s' = []) /\
  (let s' := snd (handleFileChange (Some [ex_image])
                   (snd (handleFileChange (Some [ex_video]) ex_state))) in
   error s' = str "Please select a valid video file." /\
   videoFile s' = None /\ mainInput s' = []).
Proof.
  split.
  - apply (proj1 (file_selection ex_video [] ex_state)). vm_compute. reflexivity.
  - apply (proj2 (file_selection ex_image []
                    (snd (handleFileChange (Some [ex_video]) ex_state)))).
    vm_compute. reflexivity.
Defined.

End ComponentProperties.

(* ===================================================================== *)
(** * Further properties of the renderer, the service and the handlers *)
(* ===================================================================== *)

Unset Implicit Arguments.

Section InlineFacts.

Lemma run_notbehind_inv w st st' : run (NotBehind w) st st' -> st' = st.
Proof. now inversion 1. Qed.

(** A pattern that cannot match without a given code unit finds nothing in
    a text that lacks it. *)
Lemma search_from_lacks r c :
  (forall st st', run r st st' -> In c (after st)) ->
  forall aft bef skipped, ~ In c aft -> search_from r bef skipped aft = None.
Proof.
  intros Hneeds. induction aft as [|d aft IH]; intros bef skipped Hc; simpl.
  - destruct (m r (MState bef [] []) Some) as [st|] eqn:E; [|reflexivity].
    apply m_sound in E as (st' & Hrun & _). now apply Hneeds in Hrun.
  - destruct (m r (MState bef (d :: aft) []) Some) as [st|] eqn:E.
    + apply m_sound in E as (st' & Hrun & _). now apply Hneeds in Hrun.
    + apply IH. intros H. apply Hc. now right.
Qed.

Lemma replaceAll_lacks r c tpl s :
  (forall st st', run r st st' -> In c (after st)) ->
  ~ In c s -> Regex.replaceAll r tpl s = s.
Proof.
  intros Hneeds Hc. unfold Regex.replaceAll. simpl.
  now rewrite (search_from_lacks r c Hneeds s [] [] Hc).
Qed.

Lemma bold_needs_star st st' : run re_bold st st' -> In 42%N (after st).
Proof.
  intros H. apply run_seq_inv in H as (mid & H & _).
  apply (run_word (str "**")) in H as [H _]. rewrite H. now left.
Qed.

Lemma italic_needs_underscore st st' : run re_italic st st' -> In 95%N (after st).
Proof.
  intros H. apply run_seq_inv in H as (mid & H & _).
  apply run_chr_inv in H as (rest & H & _). rewrite H. now left.
Qed.

Lemma link_needs_bracket st st' : run re_link st st' -> In 91%N (after st).
Proof.
  intros H. apply run_seq_inv in H as (mid & H & _).
  apply run_chr_inv in H as (rest & H & _). rewrite H. now left.
Qed.

Lemma url_needs_colon st st' : run re_url st st' -> In 58%N (after st).
Proof.
  intros H. apply run_seq_inv in H as (m1 & H1 & H). apply run_notbehind_inv in H1 as ->.
  apply run_seq_inv in H as (m2 & H2 & H). apply run_notbehind_inv in H2 as ->.
  apply run_seq_inv in H as (m3 & H3 & H). apply (run_word (str "http")) in H3 as [H3 _].
  apply run_seq_inv in H as (m4 & H4 & H).
  apply run_seq_inv in H as (m5 & H5 & _). apply (run_word (str "://")) in H5 as [H5 _].
  rewrite H3. apply in_or_app. right.
  apply run_alt_inv in H4 as [H4 | H4].
  - apply run_chr_inv in H4 as (rest & H4 & ->). rewrite H4. right.
    simpl in H5. rewrite H5. now left.
  - apply run_empty_inv in H4 as ->. rewrite H5. now left.
Qed.

End InlineFacts.

(** X1.  A text without an asterisk, an underscore, an opening bracket or a
    colon passes the inline transformer unchanged. *)
Theorem plain_text_passes_inlines (text : jsstring) :
  ~ In 42%N text -> ~ In 95%N text -> ~ In 91%N text -> ~ In 58%N text ->
  processInlines text = text.
Proof.
  intros Hstar Hus Hbr Hcol. unfold processInlines.
  rewrite (replaceAll_lacks re_bold 42%N _ text bold_needs_star Hstar).
  rewrite (replaceAll_lacks re_italic 95%N _ text italic_needs_underscore Hus).
  rewrite (replaceAll_lacks re_link 91%N _ text link_needs_bracket Hbr).
  apply (replaceAll_lacks re_url 58%N _ text url_needs_colon Hcol).
Qed.

Lemma plain_text_passes_inlines_witness :
  processInlines (str "Plain words, nothing else.") = str "Plain words, nothing else.".
Proof.
  apply plain_text_passes_inlines; intros H; vm_compute in H; intuition discriminate.
Defined.


Section CleaningFacts.

Lemma holds_app hit p s : hit s = true -> holds hit (p ++ s) = true.
Proof.
  intros H. induction p as [|c p IH]; simpl.
  - destruct s; simpl; now rewrite H.
  - rewrite IH. apply orb_true_r.
Qed.

Lemma holds_suffix hit p s : holds hit (p ++ s) = false -> holds hit s = false.
Proof.
  induction p as [|c p IH]; simpl; [trivial|].
  intros H. apply orb_false_iff in H as [_ H]. now apply IH.
Qed.

Lemma holds_prefix hit :
  (forall s x, hit (s ++ x) = false -> hit s = false) ->
  forall s x, holds hit (s ++ x) = false -> holds hit s = false.
Proof.
  intros Hmono. induction s as [|c s IH]; intros x H.
  - simpl. rewrite orb_false_r. apply (Hmono [] x).
    destruct x; simpl in H; now apply orb_false_iff in H as [H _].
  - simpl in *. apply orb_false_iff in H as [H1 H2].
    apply (Hmono (c :: s)) in H1. rewrite H1. simpl. now apply (IH x).
Qed.

Lemma trimStart_suffix s : exists p, s = p ++ trimStart s.
Proof.
  induction s as [|c s [p IH]]; simpl; [now exists []|].
  destruct (is_space c); [|now exists []].
  exists (c :: p). simpl. now f_equal.
Qed.

Lemma trimEnd_prefix s : exists x, s = trimEnd s ++ x.
Proof.
  unfold trimEnd. destruct (trimStart_suffix (rev s)) as [p Hp].
  exists (rev p). rewrite <- rev_app_distr, <- Hp. symmetry. apply rev_involutive.
Qed.

(** A text that holds no fence marker is left as it is. *)
Lemma replace_fence_free n bef aft :
  holds starts_fence aft = false -> replace_loop n re_fence [] bef aft = aft.
Proof.
  intros H. destruct n as [|n]; [reflexivity|]. simpl.
  destruct (search_from re_fence bef [] aft) as [f|] eqn:E; [exfalso | reflexivity].
  apply search_from_sound in E as (Hparts & bef' & st' & Hrun & Hafter & _).
  apply run_fence in Hrun as (w & Hf & _ & Hw). simpl in Hw, Hparts.
  rewrite Hparts, Hw, holds_app in H; [discriminate|].
  destruct Hf; reflexivity.
Qed.

Lemma clean_trim_free s :
  holds starts_fence s = false -> holds starts_fence (trim s) = false.
Proof.
  intros H. unfold trim.
  destruct (trimStart_suffix s) as [p Hp]. rewrite Hp in H. apply holds_suffix in H.
  destruct (trimEnd_prefix (trimStart s)) as [x Hx]. rewrite Hx in H.
  exact (holds_prefix starts_fence starts_fence_app _ _ H).
Qed.

Lemma space_free s : forallb is_space s = true -> holds starts_fence s = false.
Proof.
  induction s as [|c s IH]; [reflexivity|]. simpl. intros H.
  apply andb_true_iff in H as [Hc Hs]. rewrite (IH Hs), orb_false_r.
  unfold starts_fence. change (str "```") with [96%N; 96%N; 96%N]. cbn [startsWith].
  destruct (N.eqb_spec 96 c) as [<- | _]; [discriminate | reflexivity].
Qed.

Lemma trimStart_spaces s : forallb is_space s = true -> trimStart s = [].
Proof.
  induction s as [|c s IH]; [reflexivity|]. simpl. intros H.
  apply andb_true_iff in H as [-> Hs]. now apply IH.
Qed.

End CleaningFacts.

(** X2.  A text that holds no three backticks in a row is only trimmed by
    the cleaning step; cleaning a cleaned text changes nothing, so a cleaned
    report has the blocks and the markup of the report itself. *)
Theorem cleaning_is_idempotent (markdown : jsstring) :
  (holds starts_fence markdown = false -> cleanMarkdown markdown = trim markdown) /\
  cleanMarkdown (cleanMarkdown markdown) = cleanMarkdown markdown /\
  blocks (cleanMarkdown markdown) = blocks markdown /\
  parseMarkdownToHtml (cleanMarkdown markdown) = parseMarkdownToHtml markdown.
Proof.
  assert (Hidem : cleanMarkdown (cleanMarkdown markdown) = cleanMarkdown markdown).
  { unfold cleanMarkdown at 1. unfold Regex.replaceAll.
    rewrite replace_fence_free; [apply trim_idem|].
    apply clean_trim_free. apply replace_fence_clean. lia. }
  split.
  - intros H. unfold cleanMarkdown, Regex.replaceAll. now rewrite replace_fence_free.
  - split; [exact Hidem|]. unfold parseMarkdownToHtml, blocks. now rewrite Hidem.
Qed.

Lemma cleaning_is_idempotent_witness :
  cleanMarkdown (str " # T ") = trim (str " # T ").
Proof. apply (proj1 (cleaning_is_idempotent (str " # T "))). reflexivity. Defined.


(** X3.  A text of white space only, the empty text among them, renders to
    the empty markup. *)
Theorem blank_text_renders_nothing (markdown : jsstring) :
  forallb is_space markdown = true -> parseMarkdownToHtml markdown = [].
Proof.
  intros H. unfold parseMarkdownToHtml, blocks, cleanMarkdown, Regex.replaceAll.
  rewrite replace_fence_free by now apply space_free.
  unfold trim. rewrite (trimStart_spaces _ H). reflexivity.
Qed.

Lemma blank_text_renders_nothing_witness :
  parseMarkdownToHtml (str "  " ++ nl ++ cr ++ nl ++ str " ") = [].
Proof. apply blank_text_renders_nothing. reflexivity. Defined.


Section SplitFacts.

Lemma split_from_word sep w :
  ~ In sep w ->
  forall cur rest, split_from sep cur (w ++ rest) = split_from sep (rev w ++ cur) rest.
Proof.
  induction w as [|c w IH]; intros Hw cur rest; [reflexivity|]. simpl.
  destruct (N.eqb_spec c sep) as [-> | _]; [exfalso; apply Hw; now left|].
  rewrite IH by (intros H; apply Hw; now right). now rewrite <- app_assoc.
Qed.

Lemma split_word sep w : ~ In sep w -> JS.split sep w = [w].
Proof.
  intros Hw. unfold JS.split. rewrite <- (app_nil_r w) at 1.
  rewrite split_from_word by assumption. simpl.
  now rewrite app_nil_r, rev_involutive.
Qed.

Lemma split_cons sep w rest :
  ~ In sep w -> JS.split sep (w ++ sep :: rest) = w :: JS.split sep rest.
Proof.
  intros Hw. unfold JS.split. rewrite split_from_word by assumption. simpl.
  now rewrite N.eqb_refl, app_nil_r, rev_involutive.
Qed.

(** Splitting what was joined gives the parts back. *)
Lemma split_join sep parts :
  parts <> [] -> (forall w, In w parts -> ~ In sep w) ->
  JS.split sep (join [sep] parts) = parts.
Proof.
  induction parts as [|w [|v parts] IH]; intros Hne Hparts; [congruence | |].
  - simpl. apply split_word. apply Hparts. now left.
  - change (join [sep] (w :: v :: parts)) with (w ++ sep :: join [sep] (v :: parts)).
    rewrite split_cons by (apply Hparts; now left). f_equal.
    apply IH; [discriminate|]. intros u Hu. apply Hparts. now right.
Qed.

Lemma removelast_snoc (A : Type) (l : list A) (x : A) : removelast (l ++ [x]) = l.
Proof. rewrite removelast_app by discriminate. simpl. apply app_nil_r. Qed.

End SplitFacts.

(** The cells of a row written between pipes. *)
Lemma cells_of_pipes (cs : list jsstring) :
  cs <> [] -> (forall cell, In cell cs -> ~ In 124%N cell) ->
  cells (str "|" ++ join (str "|") cs ++ str "|") = map trim cs.
Proof.
  intros Hne Hcs. unfold cells. f_equal.
  change (str "|" ++ join (str "|") cs ++ str "|")
    with ([] ++ 124%N :: (join [124%N] cs ++ [124%N])).
  change (ch "|") with 124%N.
  rewrite split_cons by (intros []).
  replace (join [124%N] cs ++ [124%N]) with (join [124%N] (cs ++ [[]])).
  - rewrite split_join.
    + unfold slice_1_m1. simpl. apply removelast_snoc.
    + destruct cs; discriminate.
    + intros w Hw. apply in_app_or in Hw as [Hw | [<- | []]]; [now apply Hcs | intros []].
  - clear Hcs. induction cs as [|w [|v cs] IH]; [congruence | |].
    + reflexivity.
    + change (join [124%N] ((w :: v :: cs) ++ [[]]))
        with (w ++ 124%N :: join [124%N] ((v :: cs) ++ [[]])).
      rewrite IH by discriminate.
      change (join [124%N] (w :: v :: cs)) with (w ++ 124%N :: join [124%N] (v :: cs)).
      now rewrite <- app_assoc.
Qed.

(** X4.  A table row written as its cells between pipes is read back as
    these cells, trimmed and in order, when no cell holds a pipe. *)
Theorem row_cells_round_trip (cs : list jsstring) :
  cs <> [] -> (forall cell, In cell cs -> ~ In 124%N cell) ->
  cells (str "|" ++ join (str "|") cs ++ str "|") = map trim cs.
Proof. exact (cells_of_pipes cs). Qed.

Lemma row_cells_round_trip_witness :
  cells (str "|" ++ join (str "|") [str " a "; []; str "b_c"] ++ str "|") =
  map trim [str " a "; []; str "b_c"].
Proof.
  apply row_cells_round_trip; [discriminate|].
  intros cell [<- | [<- | [<- | []]]] H; vm_compute in H; intuition discriminate.
Defined.


Section LineFacts.


Lemma m_line_none bef c rest :
  is_eol c = false -> m re_line (MState bef (c :: rest) []) Some = None.
Proof.
  unfold is_eol. intros H. apply orb_false_iff in H as [H10 H13].
  unfold re_line, Cat, Opt. cbn [m fold_right after before caps].
  rewrite (N.eqb_sym 13 c), (N.eqb_sym 10 c), H10, H13. reflexivity.
Qed.

Lemma m_line_feed bef rest :
  m re_line (MState bef (10%N :: rest) []) Some = Some (MState (10%N :: bef) rest []).
Proof. reflexivity. Qed.

Lemma split_line_word w :
  forallb (fun c => negb (is_eol c)) w = true ->
  forall n bef cur rest, length (w ++ rest) < n ->
  split_loop n re_line bef cur (w ++ rest) =
  split_loop (n - length w) re_line (rev w ++ bef) (rev w ++ cur) rest.
Proof.
  induction w as [|c w IH]; intros Hw n bef cur rest Hn.
  - simpl. now rewrite Nat.sub_0_r.
  - simpl in Hw. apply andb_true_iff in Hw as [Hc Hw]. apply negb_true_iff in Hc.
    destruct n as [|n]; [simpl in Hn; lia|]. simpl in Hn.
    cbn [app split_loop]. rewrite (m_line_none bef c (w ++ rest) Hc).
    rewrite IH by (assumption || lia). simpl. now rewrite <- !app_assoc.
Qed.

Lemma split_line_end w :
  forallb (fun c => negb (is_eol c)) w = true ->
  forall n bef cur, length w < n ->
  split_loop n re_line bef cur w = [rev cur ++ w].
Proof.
  intros Hw n bef cur Hn. rewrite <- (app_nil_r w) at 1.
  rewrite split_line_word by (assumption || now rewrite app_nil_r).
  destruct (n - length w) as [|k] eqn:E; [lia|]. simpl.
  now rewrite rev_app_distr, rev_involutive.
Qed.

Lemma split_line_feed w :
  forallb (fun c => negb (is_eol c)) w = true ->
  forall n bef cur rest, length (w ++ 10%N :: rest) < n ->
  exists k bef', length rest < k /\
  split_loop n re_line bef cur (w ++ 10%N :: rest) =
  (rev cur ++ w) :: split_loop k re_line bef' [] rest.
Proof.
  intros Hw n bef cur rest Hn. rewrite split_line_word by assumption.
  rewrite length_app in Hn. simpl in Hn.
  destruct (n - length w) as [|k] eqn:E; [lia|].
  exists k, (10%N :: rev w ++ bef). split; [unfold char in *; lia|].
  cbn [split_loop]. rewrite m_line_feed. cbn [matched after before caps].
  change (10%N :: rest) with ([10%N] ++ rest). rewrite consumed_app.
  cbn [captured groups re_line]. simpl. now rewrite rev_app_distr, rev_involutive.
Qed.

Lemma lines_of_joined ls :
  ls <> [] -> (forall l, In l ls -> forallb (fun c => negb (is_eol c)) l = true) ->
  forall n bef, length (join nl ls) < n ->
  split_loop n re_line bef [] (join nl ls) = ls.
Proof.
  induction ls as [|l [|l' ls] IH]; intros Hne Hls n bef Hn; [congruence | |].
  - simpl in *. rewrite split_line_end; [reflexivity | apply Hls; now left | assumption].
  - change (join nl (l :: l' :: ls)) with (l ++ 10%N :: join nl (l' :: ls)) in *.
    destruct (split_line_feed l (Hls l (or_introl eq_refl)) n bef [] _ Hn)
      as (k & bef' & Hk & ->).
    simpl. f_equal. apply IH; [discriminate | | assumption].
    intros u Hu. apply Hls. now right.
Qed.

End LineFacts.

Section StarFacts.

Lemma clear_nil cs : clear [] cs = cs.
Proof. induction cs as [|p cs IH]; [reflexivity|]. unfold clear in *. simpl. now f_equal. Qed.


(** A greedy run of one class, before a continuation that fails wherever
    the class goes on: the run is taken whole. *)
Lemma star_class p k :
  (forall st d rest, after st = d :: rest -> p d = true -> k st = None) ->
  forall n st, length (after st) < n ->
  exists st1, after st1 = skip_class p (after st) /\ caps st1 = caps st /\
    iterate (m (Class p)) [] true k n st = k st1.
Proof.
  intros Hk. remember (m (Class p)) as body eqn:Hb.
  assert (Hbody : forall st k0, body st k0 =
            match after st with
            | d :: rest => if p d then k0 (MState (d :: before st) rest (caps st)) else None
            | [] => None
            end) by now subst body.
  clear Hb. induction n as [|n IH]; intros st Hn; [lia|]. cbn [iterate].
  rewrite clear_nil, Hbody. cbn [after before caps].
  destruct (after st) as [|d rest] eqn:E.
  - exists st. rewrite E. auto.
  - simpl. destruct (p d) eqn:Ep.
    + simpl in Hn.
      replace (length rest <? S (length rest)) with true
        by (symmetry; apply Nat.ltb_lt; lia).
      destruct (IH (MState (d :: before st) rest (caps st))) as (st1 & Ha & Hc & Hi);
        [simpl; lia|].
      exists st1. simpl in Ha, Hc. rewrite Hi, (Hk st d rest E Ep).
      unfold orelse. split; [assumption|]. split; [assumption|]. now destruct (k st1).
    + exists st. rewrite E. auto.
Qed.

(** A greedy run of one class at the end of a pattern. *)
Lemma star_class_last p k :
  (forall st, k st = Some st) ->
  forall n st, length (after st) < n ->
  exists st1, after st1 = skip_class p (after st) /\
    iterate (m (Class p)) [] true k n st = Some st1.
Proof.
  intros Hk. remember (m (Class p)) as body eqn:Hb.
  assert (Hbody : forall st k0, body st k0 =
            match after st with
            | d :: rest => if p d then k0 (MState (d :: before st) rest (caps st)) else None
            | [] => None
            end) by now subst body.
  clear Hb. induction n as [|n IH]; intros st Hn; [lia|]. cbn [iterate].
  rewrite clear_nil, Hk, Hbody. cbn [after before caps].
  destruct (after st) as [|d rest] eqn:E.
  - exists st. rewrite E. auto.
  - simpl. destruct (p d) eqn:Ep.
    + simpl in Hn.
      replace (length rest <? S (length rest)) with true
        by (symmetry; apply Nat.ltb_lt; lia).
      destruct (IH (MState (d :: before st) rest (caps st))) as (st1 & Ha & Hi);
        [simpl; lia|].
      exists st1. simpl in Ha. rewrite Hi. auto.
    + exists st. rewrite E. auto.
Qed.

Lemma skip_space s : skip_class is_space s = trimStart s.
Proof. induction s as [|c s IH]; simpl; [reflexivity | now rewrite IH]. Qed.

Lemma skip_digit s : skip_class is_digit s = skip_digits s.
Proof. induction s as [|c s IH]; simpl; [reflexivity | now rewrite IH]. Qed.

Lemma space_not_bullet d : is_space d = true -> is_bullet d = false.
Proof.
  unfold is_bullet, is_char. change (ch "-") with 45%N. change (ch "*") with 42%N.
  intros H. destruct (N.eqb_spec d 45) as [-> | _]; [discriminate|].
  destruct (N.eqb_spec d 42) as [-> | _]; [discriminate | reflexivity].
Qed.

Lemma space_not_digit d : is_space d = true -> is_digit d = false.
Proof.
  unfold is_digit. intros H.
  destruct (N.leb_spec 48 d) as [H1|]; [|reflexivity].
  destruct (N.leb_spec d 57) as [H2|]; [|reflexivity]. exfalso.
  unfold is_space in H.
  repeat match type of H with
  | context [(?a <=? ?b)%N] => destruct (N.leb_spec a b)
  | context [(?a =? ?b)%N] => destruct (N.eqb_spec a b)
  end; simpl in H; try discriminate; lia.
Qed.

Lemma digit_not_dot d : is_digit d = true -> is_char "." d = false.
Proof.
  unfold is_digit, is_char. change (ch ".") with 46%N. intros H.
  apply andb_true_iff in H as [H _]. apply N.leb_le in H. apply N.eqb_neq. lia.
Qed.

End StarFacts.

Section MarkerFacts.

Lemma m_class p st k :
  m (Class p) st k =
  match after st with
  | d :: rest => if p d then k (MState (d :: before st) rest (caps st)) else None
  | [] => None
  end.
Proof. reflexivity. Qed.

Lemma m_chr c st k :
  m (Chr c) st k =
  match after st with
  | d :: rest => if (c =? d)%N then k (MState (d :: before st) rest (caps st)) else None
  | [] => None
  end.
Proof. reflexivity. Qed.

(** What the list branches remove from a line. *)
Lemma replace_bullet_marker line :
  Regex.replace re_bullet_marker [] line = strip_bullet line.
Proof.
  unfold Regex.replace.
  change re_bullet_marker
    with (Seq Bol (Cat [Star true Space; Class is_bullet; Star true Space])).
  rewrite exec_anchored.
  set (k2 := fun st : mstate => Some st).
  set (k1 := fun st : mstate =>
               m (Class is_bullet) st
                 (fun st' => iterate (m (Class is_space)) [] true k2
                               (S (length (after st'))) st')).
  change (m (Cat [Star true Space; Class is_bullet; Star true Space])
            (MState [] line []) k2)
    with (iterate (m (Class is_space)) [] true k1 (S (length line)) (MState [] line [])).
  destruct (star_class is_space k1) with (n := S (length line)) (st := MState [] line [])
    as (st1 & Ha & _ & Hi).
  { intros st d rest E Hd. unfold k1. rewrite m_class, E.
    now rewrite (space_not_bullet d Hd). }
  { simpl. lia. }
  cbn [after] in Hi, Ha. rewrite Hi. clear Hi. rewrite skip_space in Ha.
  unfold strip_bullet, k1. rewrite m_class, Ha.
  destruct (trimStart line) as [|c rest]; [reflexivity|].
  destruct (is_bullet c); [|reflexivity]. cbn [after].
  destruct (star_class_last is_space k2 (fun st => eq_refl)
              (S (length rest)) (MState (c :: before st1) rest (caps st1)))
    as (st2 & Ha2 & Hi2); [simpl; lia|].
  rewrite Hi2. cbn [pre post expand flat_map app]. simpl in Ha2.
  now rewrite Ha2, skip_space.
Qed.

Lemma replace_number_marker line :
  Regex.replace re_number_marker [] line = strip_number line.
Proof.
  unfold Regex.replace.
  change re_number_marker
    with (Seq Bol (Cat [Star true Space; Plus Digit; C "."; Star true Space])).
  rewrite exec_anchored.
  set (k4 := fun st : mstate => Some st).
  set (k3 := fun st : mstate =>
               m (Chr 46%N) st
                 (fun st' => iterate (m (Class is_space)) [] true k4
                               (S (length (after st'))) st')).
  set (k1 := fun st : mstate =>
               m (Class is_digit) st
                 (fun st' => iterate (m (Class is_digit)) [] true k3
                               (S (length (after st'))) st')).
  change (m (Cat [Star true Space; Plus Digit; C "."; Star true Space])
            (MState [] line []) k4)
    with (iterate (m (Class is_space)) [] true k1 (S (length line)) (MState [] line [])).
  destruct (star_class is_space k1) with (n := S (length line)) (st := MState [] line [])
    as (st1 & Ha & _ & Hi).
  { intros st d rest E Hd. unfold k1. rewrite m_class, E.
    now rewrite (space_not_digit d Hd). }
  { simpl. lia. }
  cbn [after] in Hi, Ha. rewrite Hi. clear Hi. rewrite skip_space in Ha.
  unfold strip_number, k1. rewrite m_class, Ha.
  destruct (trimStart line) as [|c rest]; [reflexivity|].
  destruct (is_digit c); [|reflexivity]. cbn [after].
  destruct (star_class is_digit k3) with (n := S (length rest))
      (st := MState (c :: before st1) rest (caps st1))
    as (st2 & Ha2 & _ & Hi2).
  { intros st d rest' E Hd. unfold k3. rewrite m_chr, E.
    pose proof (digit_not_dot d Hd) as Hdot. unfold is_char in Hdot.
    change (ch ".") with 46%N in Hdot. now rewrite N.eqb_sym, Hdot. }
  { simpl. lia. }
  rewrite Hi2. clear Hi2. simpl in Ha2. rewrite skip_digit in Ha2.
  unfold k3. rewrite m_chr, Ha2. destruct (skip_digits rest) as [|d rest']; [reflexivity|].
  unfold is_char. change (ch ".") with 46%N. rewrite (N.eqb_sym 46 d).
  destruct (d =? 46)%N; [|reflexivity]. cbn [after].
  destruct (star_class_last is_space k4 (fun st => eq_refl)
              (S (length rest')) (MState (d :: before st2) rest' (caps st2)))
    as (st3 & Ha3 & Hi3); [simpl; lia|].
  rewrite Hi3. cbn [pre post expand flat_map app]. simpl in Ha3.
  now rewrite Ha3, skip_space.
Qed.

End MarkerFacts.

Section BranchFacts.

Lemma test_bullet_spec s :
  Regex.test re_bullet s =
  match s with
  | c :: d :: _ => is_bullet c && is_space d
  | _ => false
  end.
Proof.
  unfold Regex.test.
  change re_bullet with (Seq Bol (Cat [Group 1 (Alt (C "*") (C "-")); Space])).
  rewrite exec_anchored. unfold Cat, C, Space. cbn [fold_right m].
  change (ch "*") with 42%N. change (ch "-") with 45%N.
  destruct s as [|c [|d t]]; [reflexivity | |]; cbn [after before caps];
    unfold is_bullet, is_char; change (ch "*") with 42%N; change (ch "-") with 45%N;
    rewrite (N.eqb_sym 42 c), (N.eqb_sym 45 c);
    destruct (c =? 42)%N, (c =? 45)%N; cbn [orelse orb andb after before caps]; try reflexivity;
    destruct (is_space d); reflexivity.
Qed.

Lemma test_number_spec s :
  Regex.test re_number s =
  match s with
  | c :: rest =>
      is_digit c &&
      match skip_digits rest with
      | d :: e :: _ => is_char "." d && is_space e
      | _ => false
      end
  | [] => false
  end.
Proof.
  unfold Regex.test. change re_number with (Seq Bol (Cat [Plus Digit; C "."; Space])).
  rewrite exec_anchored.
  set (k2 := fun st : mstate => Some st).
  set (k1 := fun st : mstate => m (Chr 46%N) st (fun st' => m (Class is_space) st' k2)).
  change (m (Cat [Plus Digit; C "."; Space]) (MState [] s []) k2)
    with (m (Class is_digit) (MState [] s [])
            (fun st' => iterate (m (Class is_digit)) [] true k1 (S (length (after st'))) st')).
  rewrite m_class. cbn [after before caps].
  destruct s as [|c rest]; [reflexivity|]. destruct (is_digit c); [|reflexivity].
  destruct (star_class is_digit k1) with (n := S (length rest))
      (st := MState [c] rest [])
    as (st2 & Ha2 & _ & Hi2).
  { intros st d rest' E Hd. unfold k1. rewrite m_chr, E.
    pose proof (digit_not_dot d Hd) as Hdot. unfold is_char in Hdot.
    change (ch ".") with 46%N in Hdot. now rewrite N.eqb_sym, Hdot. }
  { simpl. lia. }
  rewrite Hi2. simpl in Ha2. rewrite skip_digit in Ha2.
  unfold k1. rewrite m_chr, Ha2. cbn [andb].
  destruct (skip_digits rest) as [|d rest']; [reflexivity|].
  unfold is_char. change (ch ".") with 46%N. rewrite (N.eqb_sym 46 d).
  destruct (d =? 46)%N; [|now destruct rest'].
  rewrite m_class. cbn [after andb]. destruct rest' as [|e t]; [reflexivity|].
  now destruct (is_space e).
Qed.

(** A block whose first code unit is no pipe, hash sign or greater-than
    sign is a list or a paragraph. *)
Lemma later_branches c t :
  (c =? 124)%N = false -> (c =? 35)%N = false -> (c =? 62)%N = false ->
  render_trimmed (c :: t) =
    if Regex.test re_bullet (c :: t) then ul (c :: t)
    else if Regex.test re_number (c :: t) then ol (c :: t)
    else paragraph (c :: t).
Proof.
  intros H1 H2 H3. unfold render_trimmed.
  change (startsWith (str "|") (c :: t)) with ((124 =? c)%N && true).
  change (startsWith (str "### ") (c :: t)) with ((35 =? c)%N && startsWith (str "## ") t).
  change (startsWith (str "## ") (c :: t)) with ((35 =? c)%N && startsWith (str "# ") t).
  change (startsWith (str "# ") (c :: t)) with ((35 =? c)%N && startsWith (str " ") t).
  change (startsWith (str "> ") (c :: t)) with ((62 =? c)%N && startsWith (str " ") t).
  now rewrite (N.eqb_sym 124 c), (N.eqb_sym 35 c), (N.eqb_sym 62 c), H1, H2, H3.
Qed.

(** Replacing the line feeds of a text. *)
Lemma search_lf_none :
  forall s bef skipped, ~ In 10%N s -> search_from re_lf bef skipped s = None.
Proof.
  apply search_from_lacks. intros st st' H.
  apply run_chr_inv in H as (rest & -> & _). now left.
Qed.

Lemma search_lf_word w :
  ~ In 10%N w ->
  forall bef skipped rest,
  search_from re_lf bef skipped (w ++ 10%N :: rest) =
  Some (Found (rev skipped ++ w) [10%N] [] rest).
Proof.
  induction w as [|c w IH]; intros Hw bef skipped rest.
  - simpl. rewrite app_nil_r. change (10%N :: rest) with ([10%N] ++ rest) at 1.
    now rewrite consumed_app.
  - cbn [app search_from re_lf m after]. 
    destruct (N.eqb_spec 10 c) as [<- | _]; [exfalso; apply Hw; now left|].
    rewrite IH by (intros H; apply Hw; now right). simpl. now rewrite <- app_assoc.
Qed.

Lemma with_line_breaks_word w : ~ In 10%N w -> with_line_breaks w = w.
Proof.
  induction w as [|c w IH]; intros Hw; [reflexivity|]. unfold with_line_breaks in *. simpl.
  destruct (N.eqb_spec c 10) as [-> | _]; [exfalso; apply Hw; now left|].
  simpl. f_equal. apply IH. intros H. apply Hw. now right.
Qed.

Lemma split_at_lf s :
  ~ In 10%N s \/ exists w rest, s = w ++ 10%N :: rest /\ ~ In 10%N w.
Proof.
  induction s as [|c s [IH | (w & rest & -> & Hw)]].
  - left. intros [].
  - destruct (N.eq_dec c 10) as [-> | Hc].
    + right. exists [], s. split; [reflexivity | intros []].
    + left. intros [H | H]; congruence.
  - destruct (N.eq_dec c 10) as [-> | Hc].
    + right. exists [], (w ++ 10%N :: rest). split; [reflexivity | intros []].
    + right. exists (c :: w), rest. split; [reflexivity|]. intros [H | H]; congruence.
Qed.

Lemma replace_lf n :
  forall s bef, length s < n ->
  replace_loop n re_lf [Text (str "<br />")] bef s = with_line_breaks s.
Proof.
  induction n as [|n IH]; intros s bef Hn; [lia|]. cbn [replace_loop].
  destruct (split_at_lf s) as [Hs | (w & rest & -> & Hw)].
  - now rewrite search_lf_none, with_line_breaks_word.
  - rewrite search_lf_word by assumption. cbn [pre matched post expand flat_map app rev].
    rewrite IH by (rewrite length_app in Hn; simpl in Hn; unfold char in *; lia).
    unfold with_line_breaks at 2. rewrite flat_map_app. fold (with_line_breaks w).
    rewrite (with_line_breaks_word w Hw). cbn [flat_map app].
    rewrite N.eqb_refl. fold (with_line_breaks rest). now rewrite <- !app_assoc.
Qed.

End BranchFacts.



(** The lines of lines joined with line feeds. *)
Lemma lines_of_text (ls : list jsstring) :
  ls <> [] ->
  (forall l, In l ls -> forallb (fun c => negb (is_eol c)) l = true) ->
  lines (join nl ls) = ls.
Proof.
  intros Hne Hls. unfold lines, Regex.split.
  destruct (join nl ls) as [|c s] eqn:E.
  - destruct ls as [|l [|l' ls]]; [congruence | simpl in E; now subst |].
    change (join nl (l :: l' :: ls)) with (l ++ 10%N :: join nl (l' :: ls)) in E.
    now destruct l.
  - rewrite <- E. apply lines_of_joined; [assumption | assumption | lia].
Qed.

(** X6.  Lines that hold no line feed and no carriage return, joined with
    line feeds, are split into these same lines, empty lines among them. *)
Theorem lines_round_trip (ls : list jsstring) :
  ls <> [] ->
  (forall l, In l ls -> forallb (fun c => negb (is_eol c)) l = true) ->
  lines (join nl ls) = ls.
Proof. exact (lines_of_text ls). Qed.

Lemma lines_round_trip_witness :
  lines (join nl [str "- a"; []; str "- b"]) = [str "- a"; []; str "- b"].
Proof.
  apply lines_round_trip; [discriminate|].
  intros l [<- | [<- | [<- | []]]]; reflexivity.
Defined.

(** X7.  A block whose trimmed text begins with a hyphen or an asterisk and
    a white space is rendered as an unordered list with one item for each
    line, the content of an item being its line without the leading white
    space, the bullet and the white space after it (a line without a bullet
    is kept whole), with the inline transformation applied. *)
Theorem unordered_list_block (block : jsstring) (c d : char) (t : jsstring) :
  trim block = c :: d :: t -> is_bullet c = true -> is_space d = true ->
  render_block block =
    str "<ul class=" ++ q "list-disc list-inside space-y-1 my-2" ++ str ">"
      ++ concat (map (fun item =>
                        str "<li class=" ++ q "pb-1" ++ str ">"
                          ++ processInlines (strip_bullet item) ++ str "</li>")
                   (lines (trim block)))
      ++ str "</ul>".
Proof.
  intros Ht Hc Hd. unfold render_block. rewrite Ht. cbn [is_empty].
  assert (Hne : (c =? 124)%N = false /\ (c =? 35)%N = false /\ (c =? 62)%N = false).
  { unfold is_bullet, is_char in Hc. change (ch "-") with 45%N in Hc.
    change (ch "*") with 42%N in Hc.
    destruct (N.eqb_spec c 45) as [-> | _]; [now repeat split|].
    destruct (N.eqb_spec c 42) as [-> | _]; [now repeat split | discriminate]. }
  destruct Hne as (H1 & H2 & H3). rewrite later_branches by assumption.
  rewrite test_bullet_spec, Hc, Hd. cbn [andb]. unfold ul. rewrite join_empty.
  rewrite (map_ext (li re_bullet_marker)
             (fun item => str "<li class=" ++ q "pb-1" ++ str ">"
                            ++ processInlines (strip_bullet item) ++ str "</li>"));
    [reflexivity|].
  intros item. unfold li. now rewrite replace_bullet_marker.
Qed.

Lemma unordered_list_block_witness :
  render_block (str "- **a**" ++ nl ++ str "  * b") =
    str "<ul class=" ++ q "list-disc list-inside space-y-1 my-2" ++ str ">"
      ++ concat (map (fun item =>
                        str "<li class=" ++ q "pb-1" ++ str ">"
                          ++ processInlines (strip_bullet item) ++ str "</li>")
                   (lines (trim (str "- **a**" ++ nl ++ str "  * b"))))
      ++ str "</ul>".
Proof.
  apply (unordered_list_block _ 45%N 32%N (str "**a**" ++ nl ++ str "  * b")); reflexivity.
Defined.

Lemma digit_first c :
  is_digit c = true ->
  (c =? 124)%N = false /\ (c =? 35)%N = false /\ (c =? 62)%N = false /\ is_bullet c = false.
Proof.
  unfold is_digit, is_bullet, is_char. change (ch "-") with 45%N. change (ch "*") with 42%N.
  intros H. apply andb_true_iff in H as [H1 H2]. apply N.leb_le in H1, H2.
  repeat split; try (apply N.eqb_neq; lia).
  apply orb_false_iff. split; apply N.eqb_neq; lia.
Qed.

(** X8.  A block whose trimmed text begins with digits, a dot and a white
    space is rendered as an ordered list with one item for each line, the
    content of an item being its line without the leading white space, the
    digits, the dot and the white space after it (a line without such a
    marker is kept whole), with the inline transformation applied. *)
Theorem ordered_list_block (block : jsstring) (c e : char) (rest t : jsstring) :
  trim block = c :: rest -> is_digit c = true ->
  skip_digits rest = 46%N :: e :: t -> is_space e = true ->
  render_block block =
    str "<ol class=" ++ q "list-decimal list-inside space-y-1 my-2" ++ str ">"
      ++ concat (map (fun item =>
                        str "<li class=" ++ q "pb-1" ++ str ">"
                          ++ processInlines (strip_number item) ++ str "</li>")
                   (lines (trim block)))
      ++ str "</ol>".
Proof.
  intros Ht Hc Hr He. unfold render_block. rewrite Ht. cbn [is_empty].
  destruct (digit_first c Hc) as (H1 & H2 & H3 & H4).
  rewrite later_branches by assumption.
  rewrite test_bullet_spec, test_number_spec, Hc, Hr, He.
  replace (match rest with [] => false | d :: _ => is_bullet c && is_space d end) with false
    by (rewrite H4; now destruct rest).
  cbn [andb is_char]. unfold is_char. change (ch ".") with 46%N. cbn [N.eqb Pos.eqb andb].
  unfold ol. rewrite join_empty.
  rewrite (map_ext (li re_number_marker)
             (fun item => str "<li class=" ++ q "pb-1" ++ str ">"
                            ++ processInlines (strip_number item) ++ str "</li>"));
    [reflexivity|].
  intros item. unfold li. now rewrite replace_number_marker.
Qed.

Lemma ordered_list_block_witness :
  render_block (str "12. a" ++ nl ++ str "3.b") =
    str "<ol class=" ++ q "list-decimal list-inside space-y-1 my-2" ++ str ">"
      ++ concat (map (fun item =>
                        str "<li class=" ++ q "pb-1" ++ str ">"
                          ++ processInlines (strip_number item) ++ str "</li>")
                   (lines (trim (str "12. a" ++ nl ++ str "3.b"))))
      ++ str "</ol>".
Proof.
  apply (ordered_list_block _ 49%N 32%N (str "2. a" ++ nl ++ str "3.b")
           (str "a" ++ nl ++ str "3.b")); reflexivity.
Defined.

(** X9.  A block whose trimmed text begins with no pipe, hash sign,
    greater-than sign, bullet or digit is rendered as a paragraph: its text
    with the inline transformation applied and then every line feed turned
    into a line break element. *)
Theorem paragraph_block (block : jsstring) (c : char) (t : jsstring) :
  trim block = c :: t ->
  (c =? 124)%N = false -> (c =? 35)%N = false -> (c =? 62)%N = false ->
  is_bullet c = false -> is_digit c = false ->
  render_block block =
    str "<p>" ++ with_line_breaks (processInlines (trim block)) ++ str "</p>".
Proof.
  intros Ht H1 H2 H3 H4 H5. unfold render_block. rewrite Ht. cbn [is_empty].
  rewrite later_branches by assumption.
  rewrite test_bullet_spec, test_number_spec, H4, H5.
  replace (match t with [] => false | d :: _ => false && is_space d end) with false
    by now destruct t.
  cbn [andb]. unfold paragraph, Regex.replaceAll. now rewrite replace_lf by lia.
Qed.

Lemma paragraph_block_witness :
  render_block (str " Hello" ++ nl ++ str "world ") =
    str "<p>"
      ++ with_line_breaks (processInlines (trim (str " Hello" ++ nl ++ str "world ")))
      ++ str "</p>".
Proof.
  apply (paragraph_block _ 72%N (str "ello" ++ nl ++ str "world")); reflexivity.
Defined.




Section TableFacts.






End TableFacts.




Section FurtherServiceProperties.

Import Service.

(** The report text begins with the text of the response. *)
Lemma with_sources_prefix (response : Response) :
  startsWith (text response) (with_sources response) = true.
Proof.
  unfold with_sources.
  destruct (chunks_of response) as [[|c chunks]|];
    try (rewrite <- (app_nil_r (text response)) at 2; apply startsWith_app).
  destruct (sources (c :: chunks)) as [|x l]; cbn [length Nat.ltb Nat.leb].
  - rewrite <- (app_nil_r (text response)) at 2; apply startsWith_app.
  - apply startsWith_app.
Qed.

(** X11.  The text [analyzeTextContent] returns begins with the text of the
    response, and is that text alone exactly when the response carries no
    citation with a usable URI. *)
Theorem report_text_is_kept (response : Response) :
  startsWith (text response) (with_sources response) = true /\
  (with_sources response = text response <->
   forall chunks, chunks_of response = Some chunks -> sources chunks = []).
Proof.
  unfold with_sources. destruct (chunks_of response) as [[|c chunks]|] eqn:E.
  - split; [rewrite <- (app_nil_r (text response)) at 2; apply startsWith_app|].
    split; [now intros _ chunks [= <-] | reflexivity].
  - destruct (sources (c :: chunks)) as [|x l] eqn:Es; cbn [length Nat.ltb Nat.leb].
    + split; [rewrite <- (app_nil_r (text response)) at 2; apply startsWith_app|].
      split; [now intros _ chunks' [= <-] | reflexivity].
    + split; [apply startsWith_app|]. split.
      * intros H. rewrite <- (app_nil_r (text response)) in H at 2.
        apply app_inv_head in H. discriminate.
      * intros H. specialize (H _ eq_refl). congruence.
  - split; [rewrite <- (app_nil_r (text response)) at 2; apply startsWith_app|].
    split; [discriminate | reflexivity].
Qed.

(** X12.  When the provider fails, [analyzeTextContent] and
    [generateArticle] fail with their own fixed messages, whatever the error
    was; [analyzeVideo] does so too, unless reading the file failed first:
    that error reaches the caller as it is. *)
Theorem provider_errors_are_masked
    (generateContent : Request -> result Response) (readAsDataURL : File -> result jsstring)
    (instruction text : jsstring) (thinking : bool) (file : File) :
  (forall request, exists e, generateContent request = inl e) ->
  analyzeTextContent generateContent instruction text =
    inl (str "Failed to generate report from text content.") /\
  generateArticle generateContent text thinking =
    inl (str "Failed to generate article from summary.") /\
  analyzeVideo generateContent readAsDataURL file text =
    match readAsDataURL file with
    | inl e => inl e
    | inr _ => inl (str "Failed to generate content from video.")
    end.
Proof.
  intros Hfail. unfold analyzeTextContent, generateArticle, analyzeVideo,
    convertFileToGenerativePart.
  repeat split.
  - match goal with |- context [generateContent ?r] => destruct (Hfail r) as [e ->] end.
    reflexivity.
  - match goal with |- context [generateContent ?r] => destruct (Hfail r) as [e ->] end.
    reflexivity.
  - destruct (readAsDataURL file); [reflexivity|].
    match goal with |- context [generateContent ?r] => destruct (Hfail r) as [e ->] end.
    reflexivity.
Qed.

Lemma provider_errors_are_masked_witness :
  analyzeTextContent failing_provider [] (str "a transcript") =
    inl (str "Failed to generate report from text content.") /\
  generateArticle failing_provider (str "a transcript") true =
    inl (str "Failed to generate article from summary.") /\
  analyzeVideo failing_provider failing_reader ex_video (str "a transcript") =
    match failing_reader ex_video with
    | inl e => inl e
    | inr _ => inl (str "Failed to generate content from video.")
    end.
Proof.
  apply provider_errors_are_masked. intros request. now exists (str "503").
Defined.

(** X13.  [convertFileToGenerativePart] takes as data what stands between
    the first and the second comma of the data URL: the whole payload of a
    URL with one comma, and nothing ([undefined]) when the URL has none. *)
Theorem data_url_payload (readAsDataURL : File -> result jsstring) (file : File)
    (header payload : jsstring) :
  ~ In 44%N header -> ~ In 44%N payload ->
  (readAsDataURL file = inr (header ++ str "," ++ payload) ->
   convertFileToGenerativePart readAsDataURL file =
     inr (InlineData (type file) (Some payload))) /\
  (readAsDataURL file = inr header ->
   convertFileToGenerativePart readAsDataURL file = inr (InlineData (type file) None)).
Proof.
  intros Hh Hp. unfold convertFileToGenerativePart. change (ch ",") with 44%N. split.
  - intros ->. change (header ++ str "," ++ payload) with (header ++ 44%N :: payload).
    now rewrite split_cons, split_word.
  - intros ->. now rewrite split_word.
Qed.

Lemma data_url_payload_witness :
  convertFileToGenerativePart (fun _ => inr (str "data:video/mp4;base64" ++ str "," ++ str "AAAA"))
    ex_video = inr (InlineData (type ex_video) (Some (str "AAAA"))).
Proof.
  apply (proj1 (data_url_payload
                  (fun _ => inr (str "data:video/mp4;base64" ++ str "," ++ str "AAAA"))
                  ex_video (str "data:video/mp4;base64") (str "AAAA")
                  ltac:(vm_compute; intuition discriminate)
                  ltac:(vm_compute; intuition discriminate))).
  reflexivity.
Defined.


End FurtherServiceProperties.

Section FurtherComponentProperties.

Import Service Component.

Ltac run_handler g s :=
  destruct g; unfold issued, complete, handler_of, slot_of,
    handleGenerateReport, handleSubmitArticle, bind, get; cbn beta iota;
  [ destruct (match videoFile s with Some _ => false | None => true end
              && is_empty (trim (mainInput s))) eqn:Eguard
  | destruct (is_empty (summary s)) eqn:Eguard ]; cbn.

(** X14.  A handler that issues its call completes with the loading
    indicator cleared, however the call settles; one that fails its
    validation leaves the indicator as it is. *)
Theorem loading_indicator_is_cleared (g : generation) (settle : call -> result jsstring)
    (s : state) :
  isLoading (complete settle (handler_of g) s) =
    match issued (handler_of g) s with
    | Some _ => None
    | None => isLoading s
    end.
Proof. run_handler g s; try reflexivity; now destruct (settle _). Qed.

(** X15.  Neither generation handler ever changes the pasted text, the
    stored video file or the thinking-mode flag, and the article handler
    never changes the report. *)
Theorem handlers_keep_inputs (g : generation) (settle : call -> result jsstring) (s : state) :
  mainInput (complete settle (handler_of g) s) = mainInput s /\
  videoFile (complete settle (handler_of g) s) = videoFile s /\
  isThinkingMode (complete settle (handler_of g) s) = isThinkingMode s /\
  (g = Article -> summary (complete settle (handler_of g) s) = summary s).
Proof.
  run_handler g s; repeat split; try reflexivity; try discriminate;
    now destruct (settle _).
Qed.

(** X16.  The controls agree with the validation of the handlers: when the
    report button is enabled, [handleGenerateReport] issues its call, and
    when the report card with the article button is shown,
    [handleSubmitArticle] issues its call for the report on display. *)
Theorem enabled_controls_pass_validation (s : state) :
  (reportDisabled s = false ->
   exists s1, issued handleGenerateReport s =
     Some (match videoFile s with
           | Some file => AnalyzeVideo file (mainInput s)
           | None => AnalyzeTextContent (mainInput s)
           end, s1)) /\
  (reportShown s = true ->
   exists s1, issued handleSubmitArticle s =
     Some (GenerateArticle (summary s) (isThinkingMode s), s1)).
Proof.
  unfold reportDisabled, reportShown, issued, handleGenerateReport, handleSubmitArticle,
    bind, get. cbn beta iota. split.
  - intros H. apply orb_false_iff in H as [_ ->]. cbn. eexists. reflexivity.
  - intros H. apply negb_true_iff in H. rewrite H. cbn. eexists. reflexivity.
Qed.

Lemma enabled_controls_pass_validation_witness :
  exists s1, issued handleGenerateReport ex_state =
    Some (AnalyzeTextContent (str "a transcript"), s1).
Proof. apply (proj1 (enabled_controls_pass_validation ex_state)). reflexivity. Defined.


(** X17.  The call of [handleGenerateReport] is [analyzeVideo] on the stored
    file, with the pasted text as instructions, when a file is stored, and
    [analyzeTextContent] on the pasted text otherwise; the text path is
    never taken with a blank text. *)
Theorem no_blank_transcript_is_sent (s s1 : state) (request : call) :
  issued handleGenerateReport s = Some (request, s1) ->
  match request with
  | AnalyzeVideo file prompt => videoFile s = Some file /\ prompt = mainInput s
  | AnalyzeTextContent text =>
      videoFile s = None /\ text = mainInput s /\ trim text <> []
  | GenerateArticle _ _ => False
  end.
Proof.
  unfold issued, handleGenerateReport, bind, get. cbn beta iota.
  destruct (videoFile s) as [file|]; cbn.
  - intros [= <- _]. auto.
  - destruct (trim (mainInput s)) eqn:E; cbn; [discriminate|].
    intros [= <- _]. rewrite E. repeat split. discriminate.
Qed.

Lemma no_blank_transcript_is_sent_witness :
  videoFile ex_state = None /\ str "a transcript" = mainInput ex_state /\
  trim (str "a transcript") <> [].
Proof.
  apply (no_blank_transcript_is_sent ex_state
           (snd (setArticle [] (snd (setSummary [] (snd (setIsLoading (Some LoadingSummary)
              (snd (setError [] ex_state))))))))
           (AnalyzeTextContent (str "a transcript"))).
  reflexivity.
Defined.


(** X19.  A handler issues no call exactly when its input is missing (no
    file and a blank text for a report, no report for an article), and then
    it changes nothing but the error message. *)
Theorem failed_validation_only_sets_error (g : generation) (settle : call -> result jsstring)
    (s : state) :
  issued (handler_of g) s = None ->
  complete settle (handler_of g) s =
    with_error
      match g with
      | Report => str "Please paste a transcript or upload a video file to analyze."
      | Article => str "Please generate a report first."
      end s /\
  match g with
  | Report => videoFile s = None /\ trim (mainInput s) = []
  | Article => summary s = []
  end.
Proof.
  run_handler g s; try discriminate; intros _; split; try reflexivity.
  - apply andb_true_iff in Eguard as [Hv Hi].
    destruct (videoFile s); [discriminate|]. split; [reflexivity|].
    now destruct (trim (mainInput s)).
  - now destruct (summary s).
Qed.

Lemma failed_validation_only_sets_error_witness :
  complete (fun _ => inr []) (handler_of Report) (snd (setMainInput (str "  ") ex_state)) =
    with_error (str "Please paste a transcript or upload a video file to analyze.")
      (snd (setMainInput (str "  ") ex_state)) /\
  videoFile (snd (setMainInput (str "  ") ex_state)) = None /\
  trim (mainInput (snd (setMainInput (str "  ") ex_state))) = [].
Proof. apply (failed_validation_only_sets_error Report). reflexivity. Defined.


(** X20.  [handleFileChange] never changes the report, the article, the
    loading indicator or the thinking-mode flag, and changes nothing at all
    when no file was selected. *)
Theorem file_change_frame (files : option (list File)) (s : state) :
  let s' := snd (handleFileChange files s) in
  summary s' = summary s /\ article s' = article s /\
  isLoading s' = isLoading s /\ isThinkingMode s' = isThinkingMode s /\
  (opt files (fun fs => nth_error fs 0) = None -> s' = s).
Proof.
  unfold handleFileChange. destruct (opt files (fun fs => nth_error fs 0)) as [file|].
  - destruct (startsWith (str "video/") (type file)); cbn; repeat split; discriminate.
  - cbn. repeat split.
Qed.

(** X21.  [adjustHeight] sets a height that is never below the minimum and,
    when a maximum is given, never above the larger of the two; the height
    it sets is computed from the scroll height at the minimum height, so it
    does not depend on the height the textarea had before, and a scroll
    height between the bounds is taken as it is. *)
Theorem adjusted_height_bounds (minHeight : Z) (maxHeight : option Z) (t : Textarea) :
  exists t',
    adjustHeight minHeight maxHeight (Some t) = Some t' /\
    layout t' = layout t /\
    (minHeight <= styleHeight t')%Z /\
    (forall mx, maxHeight = Some mx -> (styleHeight t' <= Z.max minHeight mx)%Z) /\
    (forall mx, maxHeight = Some mx -> (minHeight <= layout t minHeight <= mx)%Z ->
       styleHeight t' = layout t minHeight) /\
    (maxHeight = None -> styleHeight t' = Z.max minHeight (layout t minHeight)) /\
    (forall h, adjustHeight minHeight maxHeight (Some (setStyleHeight h t)) = Some t').
Proof.
  eexists. split; [reflexivity|]. unfold scrollHeight, setStyleHeight.
  cbn [styleHeight layout].
  repeat split; try (intros mx ->); try (intros ->); try lia.
Qed.

(** X22.  After a video file was selected, the report button is enabled
    unless a report is loading, and generating a report calls [analyzeVideo]
    on that file with no instructions: the provider gets the file and the
    system prompt alone. *)
Theorem video_selection_then_report (file : File) (others : list File) (s : state) :
  startsWith (str "video/") (type file) = true ->
  let s' := snd (handleFileChange (Some (file :: others)) s) in
  reportDisabled s' = match isLoading s with Some LoadingSummary => true | _ => false end /\
  exists s1, issued handleGenerateReport s' = Some (AnalyzeVideo file [], s1) /\
  forall generateContent readAsDataURL instruction,
    service generateContent readAsDataURL instruction (AnalyzeVideo file []) =
    match convertFileToGenerativePart readAsDataURL file with
    | inl e => inl e
    | inr part =>
        match generateContent
                {| model := videoAnalysisModel;
                   contents := Parts [part; TextPart systemPrompt];
                   config := no_config |} with
        | inr response => inr (text response)
        | inl _ => inl (str "Failed to generate content from video.")
        end
    end.
Proof.
  intros Hv. unfold handleFileChange. cbn [opt nth_error]. rewrite Hv. cbn.
  split.
  - unfold reportDisabled. cbn. now rewrite orb_false_r.
  - eexists. split; [reflexivity|]. reflexivity.
Qed.

Lemma video_selection_then_report_witness :
  exists s1,
    issued handleGenerateReport (snd (handleFileChange (Some [ex_video]) ex_state)) =
    Some (AnalyzeVideo ex_video [], s1).
Proof.
  destruct (video_selection_then_report ex_video [] ex_state eq_refl)
    as [_ (s1 & H & _)].
  exists s1. exact H.
Defined.

(** X24.  After a non-blank text was typed with no file stored, the report
    button is enabled unless a report is loading, generating a report calls
    [analyzeTextContent] on the text as typed, and when the provider
    answers, the report on display is the text of the answer followed by
    its sources section, with no error and the typed text kept. *)
Theorem typed_text_then_report (typed : jsstring) (s : state) :
  videoFile s = None -> trim typed <> [] ->
  let s' := snd (handleInputChange typed s) in
  reportDisabled s' = match isLoading s with Some LoadingSummary => true | _ => false end /\
  (exists s1, issued handleGenerateReport s' = Some (AnalyzeTextContent typed, s1)) /\
  forall generateContent readAsDataURL instruction response,
    generateContent
      {| model := str "gemini-2.5-pro";
         contents := Prompt typed;
         config := {| systemInstruction := Some instruction;
                      googleSearch := true;
                      thinkingBudget := None |} |} = inr response ->
    let s'' := complete (service generateContent readAsDataURL instruction)
                 handleGenerateReport s' in
    summary s'' = with_sources response /\
    startsWith (text response) (summary s'') = true /\
    error s'' = [] /\ mainInput s'' = typed.
Proof.
  intros Hfile Htext s'. subst s'.
  unfold handleInputChange, setMainInput, reportDisabled. cbn. rewrite Hfile.
  destruct (trim typed) eqn:E; [congruence|]. cbn.
  split.
  { change (rev (trimStart (rev (trimStart typed)))) with (trim typed). rewrite E.
    now destruct (isLoading s) as [[|]|]. }
  unfold issued, complete, handleGenerateReport, bind, get. cbn.
  change (rev (trimStart (rev (trimStart typed)))) with (trim typed). rewrite E. cbn.
  split; [eexists; reflexivity|].
  intros gc rd instr response Hgc.
  assert (H : analyzeTextContent gc instr typed = inr (with_sources response)).
  { unfold analyzeTextContent. cbn in Hgc |- *. rewrite Hgc. reflexivity. }
  rewrite H. cbn [snd setSummary setIsLoading summary error mainInput].
  repeat split. apply with_sources_prefix.
Qed.

Lemma typed_text_then_report_witness :
  exists s1, issued handleGenerateReport (snd (handleInputChange (str "Hello there") ex_state))
    = Some (AnalyzeTextContent (str "Hello there"), s1).
Proof.
  apply (typed_text_then_report (str "Hello there") ex_state eq_refl
           ltac:(vm_compute; discriminate)).
Defined.

End FurtherComponentProperties.

(* ===================================================================== *)
(** * Segmentation and the independence of blocks *)
(* ===================================================================== *)

Section SegmentationFacts.

(** A literal word matches exactly where the text starts with it. *)
Lemma m_word_exact w :
  forall st k,
  m (Word w) st k =
    if startsWith w (after st)
    then k (MState (rev w ++ before st) (skipn (length w) (after st)) (caps st))
    else None.
Proof.
  induction w as [|c w IH]; intros [bef aft cs] k; simpl.
  - reflexivity.
  - destruct aft as [|d rest]; [reflexivity|]. simpl.
    destruct (c =? d)%N eqn:E; [|reflexivity]. apply N.eqb_eq in E. subst d.
    rewrite IH. simpl. now rewrite <- app_assoc.
Qed.

(** The fence pattern at one position: the long marker first. *)
Lemma m_fence_exact bef aft :
  m re_fence (MState bef aft []) Some =
    if startsWith (str "```markdown" ++ nl) aft
    then Some (MState (rev (str "```markdown" ++ nl) ++ bef) (skipn 12 aft) [])
    else if startsWith (str "```") aft
    then Some (MState (rev (str "```") ++ bef) (skipn 3 aft) [])
    else None.
Proof.
  unfold re_fence, W. cbn [m]. rewrite !m_word_exact. cbn [after before caps].
  destruct (startsWith (str "```markdown" ++ nl) aft); reflexivity.
Qed.

Lemma without_fences_skip w :
  forall rest, without_fences_from (length w) (w ++ rest) = without_fences_from 0 rest.
Proof. induction w as [|c w IH]; intros rest; simpl; [reflexivity | apply IH]. Qed.

Lemma marker_found w s :
  w <> [] -> startsWith w s = true ->
  exists rest,
    skipn (length w) s = rest /\ s = w ++ rest /\ consumed s rest = w /\
    length rest < length s /\ without_fences_from (length w - 1) (tl s) = without_fences rest.
Proof.
  intros Hne H. apply startsWith_split in H. exists (skipn (length w) s).
  split; [reflexivity|]. split; [assumption|].
  remember (skipn (length w) s) as rest eqn:Hr. clear Hr. subst s.
  rewrite consumed_app. split; [reflexivity|].
  destruct w as [|d w]; [congruence|]. split.
  - rewrite length_app. simpl. lia.
  - simpl. rewrite Nat.sub_0_r. apply without_fences_skip.
Qed.

(** The leftmost fence marker from the cursor on: all before it is kept. *)
Lemma search_fence aft :
  forall bef skipped,
  match search_from re_fence bef skipped aft with
  | None => without_fences aft = aft
  | Some f =>
      exists p,
        pre f = rev skipped ++ p /\ matched f <> [] /\
        length (post f) < length aft /\
        without_fences aft = p ++ without_fences (post f)
  end.
Proof.
  induction aft as [|c aft IH]; intros bef skipped.
  - reflexivity.
  - cbn [search_from]. rewrite m_fence_exact.
    destruct (startsWith (str "```markdown" ++ nl) (c :: aft)) eqn:E1.
    { destruct (marker_found (str "```markdown" ++ nl) (c :: aft)) as (rest & Hr & _ & Hc & Hl & Hw);
        [discriminate | assumption |].
      cbv [length app str map list_ascii_of_string nl] in Hr. rewrite Hr.
      exists []. cbn [pre matched post after]. rewrite app_nil_r, Hc.
      split; [reflexivity|]. split; [discriminate|]. split; [assumption|].
      unfold without_fences at 1. cbn [without_fences_from]. rewrite E1. exact Hw. }
    destruct (startsWith (str "```") (c :: aft)) eqn:E2.
    { destruct (marker_found (str "```") (c :: aft)) as (rest & Hr & _ & Hc & Hl & Hw);
        [discriminate | assumption |].
      cbv [length app str map list_ascii_of_string nl] in Hr. rewrite Hr.
      exists []. cbn [pre matched post after]. rewrite app_nil_r, Hc.
      split; [reflexivity|]. split; [discriminate|]. split; [assumption|].
      unfold without_fences at 1. cbn [without_fences_from]. rewrite E1, E2. exact Hw. }
    specialize (IH (c :: bef) (c :: skipped)).
    unfold without_fences. cbn [without_fences_from]. rewrite E1, E2.
    destruct (search_from re_fence (c :: bef) (c :: skipped) aft) as [f|].
    + destruct IH as (p & Hp & Hm & Hl & Hw). exists (c :: p).
      split; [rewrite Hp; simpl; now rewrite <- app_assoc|].
      split; [assumption|]. split; [simpl; lia|].
      fold (without_fences aft). now rewrite Hw.
    + fold (without_fences aft). now rewrite IH.
Qed.

(** Replacing the fence pattern by nothing takes the markers out, from the
    left, the long one first. *)
Lemma replace_fence_exact n :
  forall bef aft, length aft < n -> replace_loop n re_fence [] bef aft = without_fences aft.
Proof.
  induction n as [|n IH]; intros bef aft Hn; [lia|]. cbn [replace_loop].
  pose proof (search_fence aft bef []) as H.
  destruct (search_from re_fence bef [] aft) as [f|]; [|now rewrite H].
  destruct H as (p & Hp & Hm & Hl & Hw). simpl in Hp. rewrite Hw, Hp.
  f_equal. cbn [expand flat_map app].
  destruct (matched f) as [|x w]; [congruence|]. apply IH. lia.
Qed.

Lemma cleanMarkdown_exact markdown : cleanMarkdown markdown = trim (without_fences markdown).
Proof.
  unfold cleanMarkdown, Regex.replaceAll. rewrite replace_fence_exact; [reflexivity | lia].
Qed.

Lemma after_breaks_eq s :
  after_breaks s = match strip_break s with Some s1 => after_breaks s1 | None => s end.
Proof.
  destruct s as [|c s]; [reflexivity|]. simpl.
  destruct (c =? 10)%N; [reflexivity|].
  destruct (c =? 13)%N; [|reflexivity].
  destruct s as [|d s]; [reflexivity|]. now destruct (d =? 10)%N.
Qed.

Lemma strip_break_shorter s s1 : strip_break s = Some s1 -> length s1 < length s.
Proof.
  destruct s as [|c s]; [discriminate|]. simpl.
  destruct (c =? 10)%N; [intros [= <-]; lia|].
  destruct (c =? 13)%N; [|discriminate].
  destruct s as [|d s]; [discriminate|].
  destruct (d =? 10)%N; [intros [= <-]; simpl; lia | discriminate].
Qed.

Lemma after_breaks_length s : length (after_breaks s) <= length s.
Proof.
  remember (length s) as n eqn:Hn. revert s Hn.
  induction n as [n IH] using lt_wf_ind. intros s ->.
  rewrite after_breaks_eq. destruct (strip_break s) as [s1|] eqn:E; [|lia].
  pose proof (strip_break_shorter _ _ E). specialize (IH _ H s1 eq_refl). lia.
Qed.

Lemma orelse_none (A : Type) (x : option A) : orelse x None = x.
Proof. now destruct x. Qed.

(** One line break at the cursor, exactly. *)
Lemma m_break_exact st k :
  match strip_break (after st) with
  | Some s1 =>
      exists b bef',
        is_break b /\ m break_group st k = k (MState bef' s1 ((1, b) :: caps st))
  | None => m break_group st k = None
  end.
Proof.
  destruct st as [bef aft cs]. unfold strip_break. cbn [after].
  unfold break_group, Cat, Opt. cbn [m fold_right after before caps].
  destruct aft as [|c rest]; [reflexivity|].
  destruct (N.eqb_spec c 10) as [-> | Hc].
  - cbn [N.eqb Pos.eqb orelse after before caps].
    exists nl, (10%N :: bef). split; [now left|].
    change (10%N :: rest) with (nl ++ rest). now rewrite consumed_app.
  - destruct (N.eqb_spec c 13) as [-> | Hc'].
    + cbn [N.eqb Pos.eqb after before caps].
      destruct rest as [|d rest]; [reflexivity|].
      destruct (N.eqb_spec d 10) as [-> | Hd].
      * cbn [N.eqb Pos.eqb]. rewrite orelse_none.
        exists (cr ++ nl), (10%N :: 13%N :: bef). split; [now right|].
        change (13%N :: 10%N :: rest) with ((cr ++ nl) ++ rest). now rewrite consumed_app.
      * assert (E : (10 =? d)%N = false) by (apply N.eqb_neq; congruence).
        change (match d with 0%N => false | N.pos q0 => (10 =? q0)%positive end)
          with (10 =? d)%N.
        rewrite E. reflexivity.
    + assert (E1 : (13 =? c)%N = false) by (apply N.eqb_neq; congruence).
      assert (E2 : (10 =? c)%N = false) by (apply N.eqb_neq; congruence).
      rewrite E1, E2. reflexivity.
Qed.

(** The greedy run of line breaks goes as far as line breaks go. *)
Lemma breaks_greedy n :
  forall st b0,
  length (after st) < n -> capture 1 (caps st) = Some b0 -> is_break b0 ->
  exists st' b,
    iterate (m break_group) [1] true Some n st = Some st' /\
    after st' = after_breaks (after st) /\
    capture 1 (caps st') = Some b /\ is_break b.
Proof.
  induction n as [|n IH]; intros st b0 Hn Hc Hb; [lia|].
  cbn [iterate]. rewrite (after_breaks_eq (after st)).
  pose proof (m_break_exact (MState (before st) (after st) (clear [1] (caps st)))
    (fun st' => if length (after st') <? length (after st)
                then iterate (m break_group) [1] true Some n st' else None)) as H.
  cbn [after] in H. destruct (strip_break (after st)) as [s1|] eqn:E.
  - destruct H as (b & bef' & Hb' & ->). cbn [after].
    pose proof (strip_break_shorter _ _ E) as Hs.
    apply Nat.ltb_lt in Hs as Hs'. rewrite Hs'. cbn [caps].
    destruct (IH (MState bef' s1 ((1, b) :: clear [1] (caps st))) b) as (st' & b' & -> & Ha & Hc' & Hb'');
      [cbn [after]; lia | reflexivity | assumption |].
    exists st', b'. cbn [orelse after] in *. auto.
  - rewrite H. exists st, b0. cbn [orelse]. auto.
Qed.

(** The blank-line pattern at one position, exactly: it matches where two
    line breaks start, and takes the whole run of them. *)
Lemma m_blank_exact bef aft :
  if starts_blank aft
  then exists st' b,
         m re_blank (MState bef aft []) Some = Some st' /\
         after st' = after_breaks aft /\ length (after st') < length aft /\
         capture 1 (caps st') = Some b /\ is_break b
  else m re_blank (MState bef aft []) Some = None.
Proof.
  pose (k2 := fun st'0 => m (Star true break_group) st'0 Some).
  pose (k1 := fun st' => m break_group st' k2).
  change (m re_blank (MState bef aft []) Some) with (m break_group (MState bef aft []) k1).
  unfold starts_blank.
  pose proof (m_break_exact (MState bef aft []) k1) as H1. cbn [after caps] in H1.
  destruct (strip_break aft) as [s1|] eqn:E1; [|exact H1].
  destruct H1 as (b1 & bef1 & Hb1 & ->). unfold k1.
  pose proof (m_break_exact (MState bef1 s1 [(1, b1)]) k2) as H2. cbn [after caps] in H2.
  destruct (strip_break s1) as [s2|] eqn:E2; [|exact H2].
  destruct H2 as (b2 & bef2 & Hb2 & ->). unfold k2.
  change (m (Star true break_group) (MState bef2 s2 [(1, b2); (1, b1)]) Some)
    with (iterate (m break_group) (groups break_group) true Some (S (length s2))
            (MState bef2 s2 [(1, b2); (1, b1)])).
  change (groups break_group) with [1].
  destruct (breaks_greedy (S (length s2)) (MState bef2 s2 [(1, b2); (1, b1)]) b2)
    as (st' & b & -> & Ha & Hc & Hb); [cbn [after]; lia | reflexivity | assumption |].
  exists st', b. cbn [after] in Ha.
  rewrite (after_breaks_eq aft), E1, (after_breaks_eq s1), E2.
  split; [reflexivity|]. split; [assumption|]. split; [|auto].
  rewrite Ha. pose proof (after_breaks_length s2).
  pose proof (strip_break_shorter _ _ E1). pose proof (strip_break_shorter _ _ E2). lia.
Qed.

(** The count of [pieces_from] never runs out: any count above the length
    of the text gives the same pieces. *)
Lemma pieces_from_count n :
  forall m cur s, length s < n -> length s < m -> pieces_from n cur s = pieces_from m cur s.
Proof.
  induction n as [|n IH]; intros [|m] cur s Hn Hm; try lia.
  cbn [pieces_from]. destruct s as [|c s]; [reflexivity|].
  destruct (starts_blank (c :: s)) eqn:E.
  - f_equal. unfold starts_blank in E.
    destruct (strip_break (c :: s)) as [s1|] eqn:E1; [|discriminate].
    pose proof (strip_break_shorter _ _ E1). pose proof (after_breaks_length s1).
    rewrite (after_breaks_eq (c :: s)), E1. simpl in *. apply IH; lia.
  - simpl in *. apply IH; lia.
Qed.

Lemma trim_break b : is_break b -> trim b = [].
Proof. intros [-> | ->]; reflexivity. Qed.

Lemma consumed_nonempty (s t : jsstring) : length t < length s -> consumed s t <> [].
Proof.
  unfold consumed. intros H E. apply (f_equal (@length _)) in E.
  rewrite length_firstn in E. simpl in E. lia.
Qed.

(** Splitting on the blank-line pattern gives the pieces between the runs
    of line breaks and, between them, line breaks that trim to nothing. *)
Lemma split_blank_exact n :
  forall bef cur aft,
  filter (fun b => negb (is_empty b)) (map trim (split_loop n re_blank bef cur aft)) =
  filter (fun b => negb (is_empty b)) (map trim (pieces_from n cur aft)).
Proof.
  induction n as [|n IH]; intros bef cur aft; [reflexivity|].
  cbn [split_loop pieces_from]. destruct aft as [|c aft]; [reflexivity|].
  pose proof (m_blank_exact bef (c :: aft)) as H.
  destruct (starts_blank (c :: aft)).
  - destruct H as (st' & b & -> & Ha & Hl & Hc & Hb). cbn [matched].
    destruct (consumed (c :: aft) (after st')) as [|x w] eqn:Ew;
      [now apply consumed_nonempty in Ew|].
    replace (captured (groups re_blank) _) with [b]
      by (unfold captured; simpl; now rewrite Hc).
    cbn [map app filter]. rewrite (trim_break _ Hb). cbn [is_empty negb].
    rewrite (IH (before st') [] (after st')), Ha. reflexivity.
  - rewrite H. apply IH.
Qed.

(** The blocks that are rendered, in the words of the specification. *)
Lemma segments_exact markdown : segments markdown = segmented markdown.
Proof.
  unfold segments, segmented, blocks. rewrite cleanMarkdown_exact.
  unfold Regex.split, pieces. destruct (trim (without_fences markdown)) as [|c s].
  - reflexivity.
  - apply split_blank_exact.
Qed.

End SegmentationFacts.

(** C3, as the code has it.  The segmentation takes the fence markers out
    of the text wherever they stand, reading from the left and taking the
    marker with the language tag and the line feed where it fits and the
    three backticks elsewhere, so that no three backticks are left and all
    else stays in place; it trims the result and cuts it at its runs of two
    or more line breaks, each run taken whole; the blocks that are rendered
    are the pieces of the text in its order, each trimmed and none empty,
    and the markup is the renderings of these blocks in that order. *)
Theorem segmentation (markdown : jsstring) :
  cleanMarkdown markdown = trim (without_fences markdown) /\
  holds starts_fence (without_fences markdown) = false /\
  cut (cleanMarkdown markdown) (blocks markdown) /\
  segments markdown = segmented markdown /\
  (forall b, In b (segmented markdown) -> b <> [] /\ trim b = b) /\
  parseMarkdownToHtml markdown = concat (map render_trimmed (segmented markdown)).
Proof.
  split; [apply cleanMarkdown_exact|]. split.
  { rewrite <- (replace_fence_exact (S (length markdown)) [] markdown) by lia.
    apply replace_fence_clean. lia. }
  split; [apply blocks_cut|]. split; [apply segments_exact|]. split.
  - intros b. rewrite <- segments_exact. apply segment_trimmed.
  - rewrite <- segments_exact. unfold parseMarkdownToHtml, segments.
    rewrite join_empty. apply render_blocks_segments.
Qed.

Lemma segmentation_witness :
  cleanMarkdown (str "```markdown" ++ nl ++ str "# T" ++ nl ++ nl ++ cr ++ nl ++ str "text"
                 ++ nl ++ str "```") = str "# T" ++ nl ++ nl ++ cr ++ nl ++ str "text" /\
  segments (str "```markdown" ++ nl ++ str "# T" ++ nl ++ nl ++ cr ++ nl ++ str "text"
            ++ nl ++ str "```") = [str "# T"; str "text"].
Proof.
  destruct (segmentation (str "```markdown" ++ nl ++ str "# T" ++ nl ++ nl ++ cr ++ nl
                          ++ str "text" ++ nl ++ str "```")) as (H1 & _ & _ & H4 & _).
  split; [rewrite H1 | rewrite H4]; reflexivity.
Defined.

Section BlockFacts.

(** A text without two line breaks in a row is one piece. *)
Lemma split_no_blank n :
  forall bef cur aft,
  holds starts_blank aft = false -> split_loop n re_blank bef cur aft = [rev cur ++ aft].
Proof.
  induction n as [|n IH]; intros bef cur aft H; [reflexivity|].
  cbn [split_loop]. destruct aft as [|c aft]; [now rewrite app_nil_r|].
  simpl in H. apply orb_false_iff in H as [H1 H2].
  pose proof (m_blank_exact bef (c :: aft)) as Hm. rewrite H1 in Hm. rewrite Hm.
  rewrite (IH _ _ _ H2). simpl. now rewrite <- app_assoc.
Qed.

Lemma holds_trim hit s :
  (forall s x, hit (s ++ x) = false -> hit s = false) ->
  holds hit s = false -> holds hit (trim s) = false.
Proof.
  intros Hmono H. unfold trim.
  destruct (trimStart_suffix s) as [p Hp]. rewrite Hp in H. apply holds_suffix in H.
  destruct (trimEnd_prefix (trimStart s)) as [x Hx]. rewrite Hx in H.
  exact (holds_prefix hit Hmono _ _ H).
Qed.

(** What the cut lists lies in the text, and holds no blank line. *)
Lemma cut_elements s l :
  cut s l ->
  forall x, In x l -> holds starts_blank x = false /\ exists a z, s = a ++ x ++ z.
Proof.
  induction 1 as [s Hs | p w b s l Hp Hw Hb Hcut IH]; intros x Hx.
  - destruct Hx as [<- | []]. split; [assumption|]. exists [], []. now rewrite app_nil_r.
  - destruct Hx as [<- | [<- | Hx]].
    + split; [assumption|]. now exists [], ((w ++ b) ++ s).
    + split; [destruct Hb as [-> | ->]; reflexivity|].
      exists (p ++ w), s. now rewrite <- !app_assoc.
    + destruct (IH x Hx) as (Hh & a & z & ->). split; [assumption|].
      exists (p ++ (w ++ b) ++ a), z. now rewrite <- !app_assoc.
Qed.

(** A block that is rendered holds no fence marker and no blank line. *)
Lemma segment_is_clean markdown b :
  In b (segments markdown) ->
  b <> [] /\ trim b = b /\ holds starts_fence b = false /\ holds starts_blank b = false.
Proof.
  intros H. destruct (segment_trimmed _ _ H) as [Hne Ht].
  split; [assumption|]. split; [assumption|].
  unfold segments in H. apply filter_In in H as [H _].
  apply in_map_iff in H as (x & <- & Hx).
  destruct (cut_elements _ _ (blocks_cut markdown) x Hx) as (Hb & a & z & Hs).
  split; [|now apply holds_trim; [apply starts_blank_app|]].
  apply holds_trim; [apply starts_fence_app|].
  assert (Hc : holds starts_fence (cleanMarkdown markdown) = false).
  { unfold cleanMarkdown, Regex.replaceAll. apply clean_trim_free.
    apply replace_fence_clean. lia. }
  rewrite Hs in Hc. apply holds_suffix in Hc.
  exact (holds_prefix starts_fence starts_fence_app _ _ Hc).
Qed.

(** A text that is trimmed and holds no fence marker and no blank line is
    its own and only block. *)
Lemma single_block b :
  b <> [] -> trim b = b -> holds starts_fence b = false -> holds starts_blank b = false ->
  blocks b = [b] /\ parseMarkdownToHtml b = render_trimmed b.
Proof.
  intros Hne Ht Hf Hb.
  assert (Hblocks : blocks b = [b]).
  { unfold blocks, cleanMarkdown, Regex.replaceAll.
    rewrite replace_fence_free by assumption. rewrite Ht.
    unfold Regex.split. destruct b as [|c b]; [congruence|].
    now rewrite split_no_blank. }
  split; [assumption|].
  unfold parseMarkdownToHtml. rewrite Hblocks. cbn [map join].
  unfold render_block. rewrite Ht. now destruct b.
Qed.

Lemma markup_nonempty (w x : jsstring) : w <> [] -> w ++ x <> [].
Proof. intros H E. apply app_eq_nil in E as [E _]. contradiction. Qed.

(** Every branch of the renderer writes an element. *)
Lemma render_trimmed_nonempty b : render_trimmed b <> [].
Proof.
  unfold render_trimmed.
  repeat match goal with |- (if ?c then _ else _) <> [] => destruct c end;
    unfold render_table, table, heading3, heading2, heading1, blockquote, ul, ol, paragraph;
    apply markup_nonempty; vm_compute; discriminate.
Qed.

End BlockFacts.

(** C8.  The markup of a text is the markup of its blocks, one after the
    other in the order of the text, each block rendered on its own: a block
    that stands alone is its own and only block, its markup is what the
    branch for its text gives, never nothing, and it contributes this same
    markup to every text it is a block of. *)
Theorem rendering_is_blockwise (markdown : jsstring) :
  parseMarkdownToHtml markdown = concat (map parseMarkdownToHtml (segmented markdown)) /\
  forall b, In b (segmented markdown) ->
    segmented b = [b] /\
    parseMarkdownToHtml b = render_trimmed b /\
    parseMarkdownToHtml b <> [] /\
    forall markdown' l1 l2,
      segmented markdown' = l1 ++ b :: l2 ->
      parseMarkdownToHtml markdown' =
        concat (map parseMarkdownToHtml l1) ++ parseMarkdownToHtml b
          ++ concat (map parseMarkdownToHtml l2).
Proof.
  assert (Hall : forall md, parseMarkdownToHtml md
                            = concat (map parseMarkdownToHtml (segmented md))).
  { intros md. rewrite <- segments_exact.
    transitivity (concat (map render_trimmed (segments md))).
    - unfold parseMarkdownToHtml, segments. rewrite join_empty. apply render_blocks_segments.
    - f_equal. apply map_ext_in. intros b Hb.
      destruct (segment_is_clean _ _ Hb) as (Hne & Ht & Hf & Hbl).
      symmetry. now apply single_block. }
  split; [apply Hall|].
  intros b Hb. rewrite <- segments_exact in Hb.
  destruct (segment_is_clean _ _ Hb) as (Hne & Ht & Hf & Hbl).
  destruct (single_block b Hne Ht Hf Hbl) as [Hblocks Hr].
  split.
  { rewrite <- segments_exact. unfold segments. rewrite Hblocks. cbn [map filter].
    rewrite Ht. now destruct b. }
  split; [assumption|]. split; [rewrite Hr; apply render_trimmed_nonempty|].
  intros md l1 l2 H. rewrite (Hall md), H, map_app, concat_app. reflexivity.
Qed.

Lemma rendering_is_blockwise_witness :
  parseMarkdownToHtml (str "# a" ++ nl ++ nl ++ nl ++ str "b" ++ nl ++ str "c" ++ cr ++ nl ++ nl
                       ++ str "> d")
  = str "<h1 class=" ++ q "text-2xl font-bold my-4" ++ str ">a</h1>"
    ++ str "<p>b<br />c</p>"
    ++ str "<blockquote class="
    ++ q "border-l-4 border-neutral-600 pl-4 my-4 italic text-neutral-400" ++ str ">d</blockquote>".
Proof.
  rewrite (proj1 (rendering_is_blockwise _)). reflexivity.
Defined.

(* ===================================================================== *)
(** * The handlers with calls in flight *)
(* ===================================================================== *)

Section SessionFacts.

Import Service Component.

Lemma wf_initial s : well_formed (initial s).
Proof. intros f []. Qed.

(** What the click on the button of a generation does: the validation
    message and nothing else, or the call with the cells made ready. *)
Lemma click g c :
  match issued (handler_of g) (ui c) with
  | None =>
      exists msg, step c (clicked g) = Session (with_error msg (ui c)) (flights c) (fresh c)
  | Some (request, s1) =>
      exists resume,
        step c (clicked g) =
          Session s1 (flights c ++ [Flight (fresh c) request resume]) (S (fresh c)) /\
        generation_of request = g /\
        (forall outcome s, snd (resume outcome s) = settled_cells g outcome s) /\
        flying g s1 /\ error s1 = [] /\ slot_of g s1 = [] /\
        (g = Article -> summary s1 = summary (ui c) /\ summary s1 <> [])
  end.
Proof.
  destruct c as [s fl n].
  destruct g; unfold issued, handler_of, clicked, step, launch, handleGenerateReport,
    handleSubmitArticle, bind, get; cbn [ui flights fresh].
  - destruct (match videoFile s with Some _ => false | None => true end
              && is_empty (trim (mainInput s))); cbn.
    + eexists. reflexivity.
    + eexists. split; [reflexivity|]. split; [now destruct (videoFile s)|].
      split; [intros [e|res] s'; reflexivity|].
      repeat split; try reflexivity; try discriminate.
  - destruct (summary s) eqn:E; cbn.
    + eexists. unfold with_error. rewrite E. reflexivity.
    + eexists. split; [reflexivity|]. split; [reflexivity|].
      split; [intros [e|res] s'; reflexivity|].
      repeat split; try reflexivity; try (now left); try (rewrite E; discriminate).
      now rewrite E.
Qed.

Lemma wf_step c e : well_formed c -> well_formed (step c e).
Proof.
  intros Hwf.
  assert (Hclick : forall g, well_formed (step c (clicked g))).
  { intros g. pose proof (click g c) as H.
    destruct (issued (handler_of g) (ui c)) as [[request s1]|].
    - destruct H as (resume & -> & Hg & Hr & _). intros f Hf. cbn [flights fresh] in *.
      apply in_app_or in Hf as [Hf | [<- | []]].
      + destruct (Hwf f Hf) as [Ht Hk]. split; [lia | assumption].
      + cbn [ticket flight_call flight_resume]. rewrite Hg. split; [lia | assumption].
    - destruct H as (msg & ->). exact Hwf. }
  destruct e as [text | files | checked | | | t outcome];
    try exact Hwf; [exact (Hclick Report) | exact (Hclick Article) |].
  cbn [step]. unfold deliver. destruct (pending t c) as [f|]; [|exact Hwf].
  intros f' Hf'. cbn [flights fresh] in *. apply filter_In in Hf' as [Hf' _]. now apply Hwf.
Qed.

Lemma wf_replay es : forall c, well_formed c -> well_formed (replay es c).
Proof.
  induction es as [|e es IH]; intros c H; [exact H|]. apply IH. now apply wf_step.
Qed.

(** The calls in flight after an event were in flight before it, or took
    off with it. *)
Lemma flights_step c e f :
  In f (flights (step c e)) ->
  fresh c <= fresh (step c e) /\ (In f (flights c) \/ fresh c <= ticket f).
Proof.
  assert (Hclick : forall g, In f (flights (step c (clicked g))) ->
            fresh c <= fresh (step c (clicked g)) /\ (In f (flights c) \/ fresh c <= ticket f)).
  { intros g. pose proof (click g c) as H.
    destruct (issued (handler_of g) (ui c)) as [[request s1]|].
    - destruct H as (resume & -> & _). cbn [flights fresh]. intros Hf.
      split; [lia|]. apply in_app_or in Hf as [Hf | [<- | []]]; [now left | right; simpl; lia].
    - destruct H as (msg & ->). cbn [flights fresh]. auto. }
  destruct e as [text | files | checked | | | t outcome];
    try (cbn [step update flights fresh]; now auto);
    [exact (Hclick Report) | exact (Hclick Article) |].
  cbn [step]. unfold deliver. destruct (pending t c) as [f0|]; [|now auto].
  cbn [flights fresh]. intros Hf. apply filter_In in Hf as [Hf _]. auto.
Qed.

Lemma fresh_step c e : fresh c <= fresh (step c e).
Proof.
  assert (Hclick : forall g, fresh c <= fresh (step c (clicked g))).
  { intros g. pose proof (click g c) as H.
    destruct (issued (handler_of g) (ui c)) as [[request s1]|].
    - destruct H as (resume & -> & _). cbn [fresh]. lia.
    - destruct H as (msg & ->). cbn [fresh]. lia. }
  destruct e as [text | files | checked | | | t outcome];
    try (cbn [step update fresh]; lia); [exact (Hclick Report) | exact (Hclick Article) |].
  cbn [step]. unfold deliver. now destruct (pending t c).
Qed.

Lemma flights_replay es :
  forall c f, In f (flights (replay es c)) -> In f (flights c) \/ fresh c <= ticket f.
Proof.
  induction es as [|e es IH]; intros c f Hf; [now left|].
  cbn [replay fold_left] in Hf. apply (IH (step c e)) in Hf as [Hf | Hf].
  - apply flights_step in Hf as [_ Hf]. exact Hf.
  - right. pose proof (fresh_step c e). lia.
Qed.

Lemma find_first (A : Type) (p : A -> bool) (l l' : list A) (x : A) :
  find p l = Some x -> find p (l ++ l') = Some x.
Proof.
  induction l as [|a l IH]; simpl; [discriminate|]. now destruct (p a).
Qed.

Lemma find_last (A : Type) (p : A -> bool) (l : list A) (x : A) :
  find p l = None -> p x = true -> find p (l ++ [x]) = Some x.
Proof.
  intros H Hx. induction l as [|a l IH]; simpl in *; [now rewrite Hx|].
  destruct (p a); [discriminate | now apply IH].
Qed.

Lemma pending_in t c f : pending t c = Some f -> In f (flights c) /\ ticket f = t.
Proof.
  unfold pending. intros H. apply find_some in H as [H1 H2].
  split; [assumption | now apply Nat.eqb_eq].
Qed.

(** A call settles: the cells change as its generation says. *)
Lemma deliver_cells c t f outcome :
  well_formed c -> pending t c = Some f ->
  ui (step c (Settled t outcome)) = settled_cells (generation_of (flight_call f)) outcome (ui c) /\
  pending t (step c (Settled t outcome)) = None.
Proof.
  intros Hwf Hp. cbn [step]. unfold deliver. rewrite Hp. cbn [ui].
  apply pending_in in Hp as [Hin _]. split; [apply (Hwf f Hin)|].
  unfold pending. cbn [flights].
  destruct (find _ (filter _ (flights c))) as [f'|] eqn:E; [|reflexivity].
  apply find_some in E as [E1 E2]. apply filter_In in E1 as [_ E1].
  rewrite E2 in E1. discriminate.
Qed.

(** The call that a click issued, once other events have gone by, is the
    call of that click. *)
Lemma issued_flight g c during f :
  well_formed c ->
  issued (handler_of g) (ui c) <> None ->
  pending (fresh c) (replay during (step c (clicked g))) = Some f ->
  generation_of (flight_call f) = g.
Proof.
  intros Hwf Hi Hp. apply pending_in in Hp as [Hin Ht].
  apply flights_replay in Hin. pose proof (click g c) as H.
  destruct (issued (handler_of g) (ui c)) as [[request s1]|]; [|congruence].
  destruct H as (resume & Hs & Hg & _). rewrite Hs in Hin. cbn [flights fresh] in Hin.
  destruct Hin as [Hin | Hin]; [|lia].
  apply in_app_or in Hin as [Hin | [<- | []]]; [|exact Hg].
  apply Hwf in Hin as [Hlt _]. lia.
Qed.



(** Until a call settles, a generation that is in flight stays so, and
    its button cannot be clicked. *)
Lemma flying_unavailable g s : flying g s -> available g s = false /\ articleShown s = false.
Proof.
  unfold flying, available, articleShown, reportDisabled, articleDisabled, reportShown.
  intros [Ha H]. rewrite Ha. split; [|reflexivity].
  destruct g.
  - destruct H as [-> _]. reflexivity.
  - destruct H as [-> | [-> ->]]; [apply andb_false_r | reflexivity].
Qed.

Lemma flying_step g c e :
  flying g (ui c) -> by_user e = true -> offered e c = true ->
  flying g (ui (step c e)) /\ e <> clicked g /\
  (forall t f, pending t c = Some f -> pending t (step c e) = Some f) /\
  (g = Report -> flights (step c e) = flights c).
Proof.
  intros Hfly Hu Ho.
  assert (Hkeep : forall h, flying g (ui (update h c)) ->
            flying g (ui (update h c)) /\
            (forall t f, pending t c = Some f -> pending t (update h c) = Some f) /\
            (g = Report -> flights (update h c) = flights c)) by (intros h H; auto).
  destruct (flying_unavailable g _ Hfly) as [Hav _].
  destruct e as [text | files | checked | | | t outcome]; try discriminate.
  - destruct (Hkeep (handleInputChange text)) as (H1 & H2 & H3); [exact Hfly|].
    split; [exact H1|]. split; [now destruct g | auto].
  - assert (H : flying g (ui (update (handleFileChange files) c))).
    { cbn [update ui]. unfold handleFileChange.
      destruct (opt files (fun fs => nth_error fs 0)) as [file|]; [|exact Hfly].
      destruct (startsWith (str "video/") (type file)); exact Hfly. }
    destruct (Hkeep _ H) as (H1 & H2 & H3).
    split; [exact H1|]. split; [now destruct g | auto].
  - destruct (Hkeep (setIsThinkingMode checked)) as (H1 & H2 & H3); [exact Hfly|].
    split; [exact H1|]. split; [now destruct g | auto].
  - (* the report button *)
    destruct g; [cbn [offered] in Ho; unfold available in Hav; rewrite Hav in Ho; discriminate|].
    pose proof (click Report c) as H.
    assert (Hi : issued (handler_of Report) (ui c) <> None).
    { unfold issued, handler_of, handleGenerateReport, bind, get. cbn beta iota.
      cbn [offered] in Ho. unfold reportDisabled in Ho. apply negb_true_iff in Ho.
      apply orb_false_iff in Ho as [_ Ho]. rewrite Ho. cbn. discriminate. }
    destruct (issued (handler_of Report) (ui c)) as [[request s1]|]; [|congruence].
    destruct H as (resume & Hs & _ & _ & Hf & _).
    change (step c ReportClicked) with (step c (clicked Report)). rewrite Hs. cbn [ui flights].
    destruct Hf as [Ha [Hl Hsum]].
    split; [split; [exact Ha | right; now split]|].
    split; [discriminate|]. split; [|discriminate].
    intros t f Hp. unfold pending in *. cbn [flights]. now apply find_first.
  - (* the article button *)
    exfalso. cbn [offered] in Ho.
    destruct Hfly as [Ha H]. unfold reportShown, articleDisabled in Ho.
    destruct g.
    + destruct H as [_ Hs]. rewrite Hs in Ho. discriminate.
    + destruct H as [Hl | [_ Hs]]; [rewrite Hl in Ho | rewrite Hs in Ho];
        [now rewrite andb_false_r in Ho | discriminate].
Qed.

Lemma flying_replay g es :
  forall c, flying g (ui c) -> forallb by_user es = true -> feasible es c = true ->
  flying g (ui (replay es c)) /\ ~ In (clicked g) es /\
  (forall t f, pending t c = Some f -> pending t (replay es c) = Some f) /\
  (g = Report -> flights (replay es c) = flights c).
Proof.
  induction es as [|e es IH]; intros c Hfly Hu Hf.
  - split; [assumption|]. split; [intros []|]. split; auto.
  - cbn [forallb] in Hu. apply andb_true_iff in Hu as [Hu1 Hu2].
    cbn [feasible] in Hf. apply andb_true_iff in Hf as [Hf1 Hf2].
    destruct (flying_step g c e Hfly Hu1 Hf1) as (H1 & H2 & H3 & H4).
    destruct (IH (step c e) H1 Hu2 Hf2) as (K1 & K2 & K3 & K4).
    cbn [replay fold_left]. split; [exact K1|]. split.
    + intros [E | E]; [now apply H2 | now apply K2].
    + split; [intros; now apply K3, H3|]. intros Hg.
      change (fold_left step es (step c e)) with (replay es (step c e)).
      rewrite (K4 Hg). now apply H4.
Qed.

End SessionFacts.

Section SessionProperties.

Import Service Component.




(** X18.  When the call of a generation settles with a result, whatever
    else has happened while it was in flight, the handler puts the result
    in the slot of its generation, clears the loading indicator and leaves
    every other cell as it is by then; when nothing has happened in
    between, no error is shown, and after a report the article slot is
    empty. *)
Theorem successful_generation_fills_slot
    (g : generation) (s0 : state) (before during : list event) (res : jsstring) :
  let c := replay before (initial s0) in
  let c1 := step c (clicked g) in
  let c2 := replay during c1 in
  let c3 := step c2 (Settled (fresh c) (inr res)) in
  issued (handler_of g) (ui c) <> None ->
  pending (fresh c) c2 <> None ->
  ui c3 = settled_cells g (inr res) (ui c2) /\
  slot_of g (ui c3) = res /\
  isLoading (ui c3) = None /\
  error (ui c3) = error (ui c2) /\
  slot_of (match g with Report => Article | Article => Report end) (ui c3) =
    slot_of (match g with Report => Article | Article => Report end) (ui c2) /\
  mainInput (ui c3) = mainInput (ui c2) /\ videoFile (ui c3) = videoFile (ui c2) /\
  isThinkingMode (ui c3) = isThinkingMode (ui c2) /\
  pending (fresh c) c3 = None /\
  (during = [] -> error (ui c3) = [] /\ article (ui c3) = match g with Report => [] | Article => res end).
Proof.
  intros c c1 c2 c3 Hi Hp.
  assert (Hwf : well_formed c) by apply wf_replay, wf_initial.
  assert (Hwf2 : well_formed c2) by now apply wf_replay, wf_step.
  destruct (pending (fresh c) c2) as [f|] eqn:Ef; [|congruence].
  pose proof (issued_flight g c during f Hwf Hi Ef) as Hg.
  destruct (deliver_cells c2 (fresh c) f (inr res) Hwf2 Ef) as [Hui Hgone].
  fold c3 in Hui, Hgone. rewrite Hg in Hui.
  split; [exact Hui|]. rewrite Hui.
  split; [now destruct g|]. split; [reflexivity|]. split; [reflexivity|].
  split; [now destruct g|]. split; [reflexivity|]. split; [reflexivity|].
  split; [reflexivity|]. split; [exact Hgone|].
  intros Hd. unfold c2. rewrite Hd. cbn [replay fold_left].
  pose proof (click g c) as H. destruct (issued (handler_of g) (ui c)) as [[request s1]|];
    [|congruence].
  destruct H as (resume & Hs & _ & _ & Hfly & Herr & _). unfold c1. rewrite Hs. cbn [ui].
  destruct Hfly as [Ha _]. split; [exact Herr | now destruct g].
Qed.

Lemma successful_generation_fills_slot_witness :
  article (ui (replay [ArticleClicked; Selected (Some [ex_image]);
                       Settled 0 (inr (str "An article"))] (initial ex_state)))
    = str "An article" /\
  isLoading (ui (replay [ArticleClicked; Selected (Some [ex_image]);
                         Settled 0 (inr (str "An article"))] (initial ex_state))) = None.
Proof.
  destruct (successful_generation_fills_slot Article ex_state [] [Selected (Some [ex_image])]
              (str "An article") ltac:(vm_compute; discriminate) ltac:(vm_compute; discriminate))
    as (_ & Hs & Hl & _).
  split; [exact Hs | exact Hl].
Defined.

(** X23.  From the click that issues the call of a generation until the
    next settlement of a call, whatever the user does of what the markup
    offers, the button of that generation cannot be clicked, the article
    card stays hidden and the call stays in flight; while it is a report
    that is generated, the report card stays hidden as well and no other
    call is issued. *)
Theorem request_in_flight
    (g : generation) (s0 : state) (before during : list event) :
  let c := replay before (initial s0) in
  let c1 := step c (clicked g) in
  let c2 := replay during c1 in
  issued (handler_of g) (ui c) <> None ->
  forallb by_user during = true ->
  feasible during c1 = true ->
  available g (ui c2) = false /\
  ~ In (clicked g) during /\
  articleShown (ui c2) = false /\
  pending (fresh c) c2 <> None /\
  (g = Report -> reportShown (ui c2) = false /\ flights c2 = flights c1) /\
  errorShown (ui c1) = false.
Proof.
  intros c c1 c2 Hi Hu Hf.
  pose proof (click g c) as H.
  destruct (issued (handler_of g) (ui c)) as [[request s1]|]; [|congruence].
  destruct H as (resume & Hs & _ & _ & Hfly & Herr & _).
  assert (Hfly1 : flying g (ui c1)) by (unfold c1; now rewrite Hs).
  destruct (flying_replay g during c1 Hfly1 Hu Hf) as (K1 & K2 & K3 & K4). fold c2 in K1, K3, K4.
  destruct (flying_unavailable g _ K1) as [Hav Hart].
  split; [exact Hav|]. split; [exact K2|]. split; [exact Hart|]. split.
  - assert (Hp : exists f, pending (fresh c) c1 = Some f).
    { unfold c1. rewrite Hs. unfold pending. cbn [flights].
      destruct (find (fun f => ticket f =? fresh c) (flights c)) as [f|] eqn:E.
      - exists f. now apply find_first.
      - eexists. apply find_last; [exact E | apply Nat.eqb_refl]. }
    destruct Hp as [f Hp]. rewrite (K3 _ _ Hp). discriminate.
  - split.
    + intros ->. split; [|now apply K4].
      unfold reportShown. destruct K1 as [_ [_ ->]]. reflexivity.
    + unfold c1. rewrite Hs. cbn [ui]. unfold errorShown. now rewrite Herr.
Qed.

Lemma request_in_flight_witness :
  available Article
    (ui (replay [ArticleClicked; Toggled false; Typed (str "new text"); ReportClicked]
           (initial ex_state))) = false.
Proof.
  apply (request_in_flight Article ex_state []
           [Toggled false; Typed (str "new text"); ReportClicked]);
    [vm_compute; discriminate | reflexivity | ].
  vm_compute. reflexivity.
Defined.

End SessionProperties.
